(** * Bible-story video generator: job orchestration and pipeline

    A shallow embedding of [backend/app.py] (the HTTP surface) and
    [backend/tasks.py] (the Celery worker pipeline), followed by the
    properties of the job life cycle that the design document states.

    Modelling conventions.
    - Redis is a finite map from keys to job records; the JSON encoding of
      a record is left implicit, and the store is taken to be reachable
      (no connection errors), so the [try/except] around the Redis calls
      never fires.  Expiry is not modelled in time: theorems quantify over
      an arbitrary store, with or without the job's record.
    - A Python dict read from JSON is a record whose fields are options:
      [None] is an absent key, and subscripting it raises [KeyError].
      In the worker, values have the types the prompt asks for and that
      the validation of [POST /generate] lets through.  The body of
      [POST /generate] itself is any JSON value, with entries of any
      JSON type.
    - External collaborators (OpenAI, Replicate, ElevenLabs, ffmpeg, S3,
      the scratch file system) are the fields of an environment [Env]:
      each call either returns a value or raises with a message.
    - The worker never reads the job store: its interaction with the
      outside is the ordered list of calls it makes, which [run_effects]
      then applies to the store. *)

From stdpp Require Import gmap strings list fin_maps pretty sorting.
From Stdlib Require Import ZArith QArith.QArith_base.

Local Open Scope string_scope.
Local Open Scope Z_scope.
Local Open Scope list_scope.

(** ** Python values and exceptions *)

(** The result of evaluating Python code: a value, or an exception whose
    [str(e)] is [msg]. *)
Inductive result (A : Type) : Type :=
| Ok (a : A)
| Raise (msg : string).
Arguments Ok {A} a.
Arguments Raise {A} msg.

#[global] Instance result_ret : MRet result := λ A a, Ok a.
#[global] Instance result_bind : MBind result := λ A B f r,
  match r with
  | Ok a => f a
  | Raise msg => Raise msg
  end.

(** [str(KeyError(k))] is the [repr] of the key. *)
Definition key_error (k : string) : string := "'" +:+ k +:+ "'".

(** [d[k]] on a dict whose entry for [k] is [v]. *)
Definition getitem {A} (k : string) (v : option A) : result A :=
  match v with
  | Some a => Ok a
  | None => Raise (key_error k)
  end.

(** Truth value of an optional string: [None] and [''] are falsy. *)
Definition truthy (s : option string) : bool :=
  match s with
  | Some s => negb (String.eqb s "")
  | None => false
  end.

(** ** Data model *)

Inductive status : Set := queued | processing | completed | failed.

#[global] Instance status_eq_dec : EqDecision status.
Proof. solve_decision. Defined.

(** A JSON value as [json.loads] returns it.  A float is given by the
    value of the double.  Arrays and objects are [Compound]: their
    content is never read where such a value can occur. *)
Module Json.
Inductive float : Type :=
| NaN
| Infinity (negative : bool)
| Finite (q : Q).

Inductive value : Type :=
| Null
| Bool (b : bool)
| Int (n : Z)
| Float (x : float)
| Str (s : string)
| Compound.
End Json.

(** What [request.get_json()] yields in [POST /generate].
    [NotIterable] stands for the cases in which [field not in data]
    raises: no JSON at all ([get_json] raises or returns [None]), null, a
    boolean or a number.  Of an object, the four entries that the
    handler reads. *)
Module Posted.
Record fields : Type := Fields {
  story : option Json.value;
  duration : option Json.value;
  resolution : option Json.value;
  tiktok : option Json.value
}.

Inductive t : Type :=
| NotIterable
| Text (s : string)
| Array (items : list Json.value)
| Object (entries : fields).
End Posted.

(** The task's [request_data]: an object that passed the validation of
    [POST /generate], with an integer duration and a boolean flag. *)
Module Request.
Record t : Type := Build {
  story : option string;
  duration : option Z;
  resolution : option string;
  tiktok : option bool
}.
End Request.

(** The record stored under [job:{job_id}]. *)
Module Job.
Record t : Type := Build {
  job_id : string;
  story : string;
  duration : Json.value;
  resolution : string;
  tiktok : Json.value;
  status : status;
  progress : Z;
  created_at : string;
  updated_at : option string;
  error : option string
}.
End Job.

(** One element of [script_data['scenes']]. *)
Module Scene.
Record t : Type := Build {
  scene_number : option Z;
  duration : option Z;
  narration : option string;
  image_description : option string;
  timing_start : option Z;
  timing_end : option Z
}.
End Scene.

Module Script.
Record t : Type := Build {
  title : option string;
  scenes : option (list Scene.t)
}.
End Script.

(** An entry of [generated_images]. *)
Module Image.
Record t : Type := Build {
  scene_number : Z;
  image_path : option string;
  duration : Z
}.
End Image.

(** An entry of [audio_files]; a produced clip's duration is
    [len(audio) / 22050], a placeholder's is the scene's. *)
Module Audio.
Record t : Type := Build {
  scene_number : Z;
  audio_path : option string;
  duration : Q
}.
End Audio.

(** ** Collaborators *)

Record Env : Type := {
  (** [openai.chat.completions.create(...)] for the prompt built from
      story, duration and format, then [.choices[0].message.content] *)
  openai_chat : string → Z → bool → result string;
  (** [json.loads]; [None] is [JSONDecodeError] *)
  json_loads : string → option Script.t;
  (** [replicate.run] followed by [requests.get] for scene index [i]:
      the status code of the download *)
  replicate_download : nat → string → string → result Z;
  (** ElevenLabs [generate] for scene index [i] *)
  elevenlabs_generate : nat → string → result (list Byte.byte);
  (** [os.makedirs(path, exist_ok=True)] *)
  makedirs : string → result unit;
  (** writing a scratch file ([open(..., 'w')] and [save]) *)
  write_file : string → result unit;
  (** [os.path.exists] at composition time *)
  path_exists : string → bool;
  (** [subprocess.run(cmd, ...)]: the return code *)
  subprocess_run : list string → result Z;
  (** [os.getenv('S3_BUCKET_NAME')] *)
  s3_bucket_name : option string;
  (** [s3_client.upload_file(file, bucket, key)] *)
  s3_upload_file : string → string → string → result unit
}.

(** ** The job store *)

Definition job_key (job_id : string) : string := "job:" +:+ job_id.

(** The assignments [update_job_progress] makes to the decoded record. *)
Definition updated (now : string) (st : status) (pr : Z) (err : option string)
    (job_info : Job.t) : Job.t :=
  {| Job.job_id := Job.job_id job_info;
     Job.story := Job.story job_info;
     Job.duration := Job.duration job_info;
     Job.resolution := Job.resolution job_info;
     Job.tiktok := Job.tiktok job_info;
     Job.status := st;
     Job.progress := pr;
     Job.created_at := Job.created_at job_info;
     Job.updated_at := Some now;
     Job.error := if truthy err then err else Job.error job_info |}.

(** [update_job_progress], at time [now]. *)
Definition update_job_progress (now : string) (job_id : string)
    (st : status) (pr : Z) (err : option string)
    (db : gmap string Job.t) : gmap string Job.t :=
  match db !! job_key job_id with
  | Some job_info => <[job_key job_id := updated now st pr err job_info]> db
  | None => db
  end.

(** ** The worker's calls *)

(** What a run of the task does to the outside world, in order. *)
Inductive effect : Type :=
| UpdateJobProgress (job_id : string) (st : status) (pr : Z) (err : option string)
| S3Upload (file bucket key : string).

(** A computation of the task: the calls made so far and either a
    value or the exception that interrupted it. *)
Record task (A : Type) : Type := Task {
  effects : list effect;
  outcome : result A
}.
Arguments Task {A} effects outcome.
Arguments effects {A} t.
Arguments outcome {A} t.

#[global] Instance task_ret : MRet task := λ A a, Task [] (Ok a).
#[global] Instance task_bind : MBind task := λ A B f m,
  match outcome m with
  | Ok a => Task (effects m ++ effects (f a)) (outcome (f a))
  | Raise msg => Task (effects m) (Raise msg)
  end.

(** A call that cannot touch the store. *)
Definition lift {A} (r : result A) : task A := Task [] r.

(** A call of [update_job_progress]: it swallows its own errors. *)
Definition emit (e : effect) : task unit := Task [e] (Ok tt).

(** [try: body  except Exception as e: handler(str(e))] *)
Definition try_except {A} (body : task A) (handler : string → task A) : task A :=
  match outcome body with
  | Ok a => body
  | Raise msg => Task (effects body ++ effects (handler msg)) (outcome (handler msg))
  end.

Definition run_effect (now : string) (e : effect)
    (db : gmap string Job.t) : gmap string Job.t :=
  match e with
  | UpdateJobProgress job_id st pr err => update_job_progress now job_id st pr err db
  | S3Upload _ _ _ => db
  end.

(** Applies the calls in order; the [n]-th call reads the clock at [n]. *)
Fixpoint run_effects (clock : nat → string) (n : nat) (es : list effect)
    (db : gmap string Job.t) : gmap string Job.t :=
  match es with
  | [] => db
  | e :: es => run_effects clock (S n) es (run_effect (clock n) e db)
  end.

(** The successive contents of the store, starting with the initial one. *)
Fixpoint store_trace (clock : nat → string) (n : nat) (es : list effect)
    (db : gmap string Job.t) : list (gmap string Job.t) :=
  db :: match es with
        | [] => []
        | e :: es => store_trace clock (S n) es (run_effect (clock n) e db)
        end.

(** ** Pipeline stages *)

Section stages.
Context (env : Env).

(** [resolution_map.get(resolution, '1920x1080')] *)
Definition resolution_map_get (resolution : string) : string :=
  if String.eqb resolution "HD" then "1280x720"
  else if String.eqb resolution "Full HD" then "1920x1080"
  else if String.eqb resolution "4K" then "3840x2160"
  else "1920x1080".

(** The script returned when the completion is not JSON. *)
Definition fallback_script (story : string) (duration : Z)
    (script_content : string) : Script.t :=
  {| Script.title := Some story;
     Script.scenes := Some [
       {| Scene.scene_number := Some 1;
          Scene.duration := Some (duration * 60);
          Scene.narration := Some script_content;
          Scene.image_description := Some ("Biblical scene depicting " +:+ story);
          Scene.timing_start := Some 0;
          Scene.timing_end := Some (duration * 60) |} ] |}.

Definition generate_script (story : string) (duration : Z)
    (tiktok_format : bool) : result Script.t :=
  script_content ← openai_chat env story duration tiktok_format;
  match json_loads env script_content with
  | Some script_data => Ok script_data
  | None => Ok (fallback_script story duration script_content)
  end.

(** *** Images *)

Definition image_file (i : nat) : string :=
  "/tmp/images/scene_" +:+ pretty (S i) +:+ ".png".

(** The body of the per-scene [try] of [generate_images]. *)
Definition image_attempt (dimensions : string) (i : nat)
    (scene : Scene.t) : result Image.t :=
  description ← getitem "image_description" (Scene.image_description scene);
  status_code ← replicate_download env i description dimensions;
  if (status_code =? 200)%Z then
    _ ← makedirs env "/tmp/images";
    _ ← write_file env (image_file i);
    scene_number ← getitem "scene_number" (Scene.scene_number scene);
    duration ← getitem "duration" (Scene.duration scene);
    Ok {| Image.scene_number := scene_number;
          Image.image_path := Some (image_file i);
          Image.duration := duration |}
  else Raise ("Failed to download image for scene " +:+ pretty (S i)).

(** Its [except] clause. *)
Definition image_placeholder (scene : Scene.t) : result Image.t :=
  scene_number ← getitem "scene_number" (Scene.scene_number scene);
  duration ← getitem "duration" (Scene.duration scene);
  Ok {| Image.scene_number := scene_number;
        Image.image_path := None;
        Image.duration := duration |}.

Fixpoint generate_images_from (dimensions : string) (i : nat)
    (scenes : list Scene.t) : result (list Image.t) :=
  match scenes with
  | [] => Ok []
  | scene :: scenes =>
      image ← match image_attempt dimensions i scene with
              | Ok image => Ok image
              | Raise _ => image_placeholder scene
              end;
      images ← generate_images_from dimensions (S i) scenes;
      Ok (image :: images)
  end.

Definition generate_images (scenes : list Scene.t)
    (resolution : string) : result (list Image.t) :=
  generate_images_from (resolution_map_get resolution) 0 scenes.

(** *** Voice-over *)

Definition audio_file (i : nat) : string :=
  "/tmp/audio/scene_" +:+ pretty (S i) +:+ ".wav".

Definition audio_attempt (i : nat) (scene : Scene.t) : result Audio.t :=
  narration ← getitem "narration" (Scene.narration scene);
  audio ← elevenlabs_generate env i narration;
  _ ← makedirs env "/tmp/audio";
  _ ← write_file env (audio_file i);
  scene_number ← getitem "scene_number" (Scene.scene_number scene);
  Ok {| Audio.scene_number := scene_number;
        Audio.audio_path := Some (audio_file i);
        Audio.duration := Qmake (Z.of_nat (length audio)) 22050 |}.

Definition audio_placeholder (scene : Scene.t) : result Audio.t :=
  scene_number ← getitem "scene_number" (Scene.scene_number scene);
  duration ← getitem "duration" (Scene.duration scene);
  Ok {| Audio.scene_number := scene_number;
        Audio.audio_path := None;
        Audio.duration := inject_Z duration |}.

Fixpoint generate_voiceover_from (i : nat)
    (scenes : list Scene.t) : result (list Audio.t) :=
  match scenes with
  | [] => Ok []
  | scene :: scenes =>
      audio ← match audio_attempt i scene with
              | Ok audio => Ok audio
              | Raise _ => audio_placeholder scene
              end;
      audio_files ← generate_voiceover_from (S i) scenes;
      Ok (audio :: audio_files)
  end.

Definition generate_voiceover (script_data : Script.t) : result (list Audio.t) :=
  scenes ← getitem "scenes" (Script.scenes script_data);
  generate_voiceover_from 0 scenes.

End stages.

(** ** Media composition *)

Section composition.
Context (env : Env).

(** [next((img['image_path'] for img in images
          if img['scene_number'] == scene['scene_number']), None)]:
    the scene's key is read when the first image is tested. *)
Definition next_image_path (images : list Image.t)
    (scene : Scene.t) : result (option string) :=
  match images with
  | [] => Ok None
  | _ :: _ =>
      n ← getitem "scene_number" (Scene.scene_number scene);
      Ok (img ← List.find (λ img, Image.scene_number img =? n)%Z images;
          Image.image_path img)
  end.

Definition next_audio_path (audio_files : list Audio.t)
    (scene : Scene.t) : result (option string) :=
  match audio_files with
  | [] => Ok None
  | _ :: _ =>
      n ← getitem "scene_number" (Scene.scene_number scene);
      Ok (audio ← List.find (λ audio, Audio.scene_number audio =? n)%Z audio_files;
          Audio.audio_path audio)
  end.

Definition segment_file (i : nat) : string :=
  "/tmp/video_segments/segment_" +:+ pretty (S i) +:+ ".mp4".

Definition segment_cmd (dimensions image_path audio_path segment_path : string)
    : list string :=
  [ "ffmpeg"; "-y";
    "-loop"; "1";
    "-i"; image_path;
    "-i"; audio_path;
    "-c:v"; "libx264";
    "-c:a"; "aac";
    "-b:a"; "192k";
    "-pix_fmt"; "yuv420p";
    "-shortest";
    "-vf"; "scale=" +:+ dimensions +:+ ":force_original_aspect_ratio=increase,crop="
             +:+ dimensions;
    segment_path ].

(** The artifacts the loop finds for a scene: both references are
    truthy and both files exist. *)
Definition usable (image_path audio_path : option string) : bool :=
  truthy image_path && truthy audio_path
  && from_option (path_exists env) false image_path
  && from_option (path_exists env) false audio_path.

(** The body of the per-scene [try] of [stitch_video]: whether a
    segment was appended. *)
Definition segment_attempt (dimensions : string) (images : list Image.t)
    (audio_files : list Audio.t) (i : nat) (scene : Scene.t) : result bool :=
  image_path ← next_image_path images scene;
  audio_path ← next_audio_path audio_files scene;
  if usable image_path audio_path then
    returncode ← subprocess_run env
      (segment_cmd dimensions (default "" image_path) (default "" audio_path)
         (segment_file i));
    Ok (returncode =? 0)%Z
  else Ok false.

(** The scenes for which a segment was appended, with their index. *)
Fixpoint segments_from (dimensions : string) (images : list Image.t)
    (audio_files : list Audio.t) (i : nat) (scenes : list Scene.t)
    : list (nat * Scene.t) :=
  match scenes with
  | [] => []
  | scene :: scenes =>
      match segment_attempt dimensions images audio_files i scene with
      | Ok true => (i, scene) :: segments_from dimensions images audio_files (S i) scenes
      | _ => segments_from dimensions images audio_files (S i) scenes
      end
  end.

(** [segment_paths] when the loop ends: the lines of the concat list. *)
Definition segment_paths (dimensions : string) (images : list Image.t)
    (audio_files : list Audio.t) (scenes : list Scene.t) : list string :=
  (λ s, segment_file s.1) <$> segments_from dimensions images audio_files 0 scenes.

Definition concat_cmd (output_path : string) : list string :=
  [ "ffmpeg"; "-y";
    "-f"; "concat";
    "-safe"; "0";
    "-i"; "/tmp/concat_list.txt";
    "-c"; "copy";
    output_path ].

Definition stitch_video_body (script_data : Script.t) (images : list Image.t)
    (audio_files : list Audio.t) (resolution : string) (tiktok_format : bool)
    (output_path : string) : result bool :=
  _ ← makedirs env "/tmp/video_segments";
  let dimensions := resolution_map_get resolution in
  scenes ← getitem "scenes" (Script.scenes script_data);
  match segment_paths dimensions images audio_files scenes with
  | [] => Ok false
  | _ :: _ =>
      _ ← write_file env "/tmp/concat_list.txt";
      returncode ← subprocess_run env (concat_cmd output_path);
      Ok (returncode =? 0)%Z
  end.

Definition stitch_video (script_data : Script.t) (images : list Image.t)
    (audio_files : list Audio.t) (resolution : string) (tiktok_format : bool)
    (output_path : string) : bool :=
  match stitch_video_body script_data images audio_files resolution
          tiktok_format output_path with
  | Ok success => success
  | Raise _ => false
  end.

End composition.

(** ** The Celery task *)

Section pipeline.
Context (env : Env).

Definition output_file (job_id : string) : string :=
  "/tmp/videos/" +:+ job_id +:+ ".mp4".

(** Steps 1 to 4 of [generate_video_task], up to
    [success = stitch_video(...)]. *)
Definition run_stages (job_id : string)
    (request_data : Request.t) : task (string * bool) :=
  story ← lift (getitem "story" (Request.story request_data));
  duration ← lift (getitem "duration" (Request.duration request_data));
  resolution ← lift (getitem "resolution" (Request.resolution request_data));
  tiktok_format ← lift (getitem "tiktok" (Request.tiktok request_data));
  _ ← emit (UpdateJobProgress job_id processing 10 None);
  script_data ← lift (generate_script env story duration tiktok_format);
  _ ← emit (UpdateJobProgress job_id processing 20 None);
  scenes ← lift (getitem "scenes" (Script.scenes script_data));
  images ← lift (generate_images env scenes resolution);
  _ ← emit (UpdateJobProgress job_id processing 40 None);
  audio_files ← lift (generate_voiceover env script_data);
  _ ← emit (UpdateJobProgress job_id processing 60 None);
  _ ← lift (makedirs env "/tmp/videos");
  let output_path := output_file job_id in
  mret (output_path,
        stitch_video env script_data images audio_files resolution
          tiktok_format output_path).

(** Step 5: the optional upload; its exception is logged only. *)
Definition upload (job_id output_path : string) : task unit :=
  if truthy (s3_bucket_name env) then
    let bucket := default "" (s3_bucket_name env) in
    let key := "videos/" +:+ job_id +:+ ".mp4" in
    try_except
      (_ ← emit (S3Upload output_path bucket key);
       lift (s3_upload_file env output_path bucket key))
      (λ _, mret tt)
  else mret tt.

(** The [if success: ... else: ...] that ends the [try] block. *)
Definition finish (job_id output_path : string) (success : bool) : task unit :=
  if success then
    _ ← emit (UpdateJobProgress job_id processing 90 None);
    _ ← upload job_id output_path;
    emit (UpdateJobProgress job_id completed 100 None)
  else
    emit (UpdateJobProgress job_id failed 0 (Some "Video stitching failed")).

Definition generate_video_task (job_id : string)
    (request_data : Request.t) : task unit :=
  try_except
    ('(output_path, success) ← run_stages job_id request_data;
     finish job_id output_path success)
    (λ msg, emit (UpdateJobProgress job_id failed 0 (Some msg))).

(** A worker executing the task against the store. *)
Definition worker_run (clock : nat → string) (job_id : string)
    (request_data : Request.t) (db : gmap string Job.t) : gmap string Job.t :=
  run_effects clock 0 (effects (generate_video_task job_id request_data)) db.

End pipeline.

(** ** The HTTP surface *)

Definition BIBLE_STORIES : list string :=
  [ "Adam and Eve"; "Noah's Ark"; "Abraham and Isaac"; "Moses and the Exodus";
    "David and Goliath"; "Jonah and the Whale"; "Daniel in the Lion's Den";
    "Jesus' Birth"; "Jesus' Baptism"; "The Good Samaritan"; "Jesus Feeds 5000";
    "Jesus Walks on Water"; "The Resurrection"; "Paul's Conversion" ].

Definition valid_resolutions : list string := [ "HD"; "Full HD"; "4K" ].

(** What a handler returns: a JSON document or a file to stream. *)
Inductive body : Type :=
| ErrorBody (error : string)
| AcceptedBody (job_id : string) (st : status) (message : string)
| StatusBody (job_id : string) (st : status) (progress : Z)
    (created_at : string) (error : option string)
| FileBody (path download_name : string).

Record response : Type := Response {
  code : Z;
  payload : body
}.

(** Redis and the broker's queue of [generate_video_task] messages: the
    job id and the posted [data]. *)
Record backend : Type := Backend {
  redis : gmap string Job.t;
  celery_queue : list (string * Posted.t)
}.

Definition required_fields : list string :=
  [ "story"; "duration"; "resolution"; "tiktok" ].

(** The entry of an object under a key. *)
Definition entry (entries : Posted.fields) (field : string) : option Json.value :=
  if String.eqb field "story" then Posted.story entries
  else if String.eqb field "duration" then Posted.duration entries
  else if String.eqb field "resolution" then Posted.resolution entries
  else if String.eqb field "tiktok" then Posted.tiktok entries
  else None.

(** [needle in hay] on two strings: a substring test. *)
Fixpoint contains (needle hay : string) : bool :=
  String.prefix needle hay
  || match hay with
     | EmptyString => false
     | String _ rest => contains needle rest
     end.

(** [v == s] for a string [s]. *)
Definition is_str (s : string) (v : Json.value) : bool :=
  match v with
  | Json.Str s' => String.eqb s s'
  | _ => false
  end.

(** [field in data] *)
Definition has_field (data : Posted.t) (field : string) : result bool :=
  match data with
  | Posted.NotIterable => Raise "argument is not iterable"
  | Posted.Text s => Ok (contains field s)
  | Posted.Array items => Ok (existsb (is_str field) items)
  | Posted.Object entries => Ok (bool_decide (is_Some (entry entries field)))
  end.

(** [data[field]] *)
Definition subscript (data : Posted.t) (field : string) : result Json.value :=
  match data with
  | Posted.NotIterable => Raise "object is not subscriptable"
  | Posted.Text _ => Raise "string indices must be integers"
  | Posted.Array _ => Raise "list indices must be integers or slices, not str"
  | Posted.Object entries => getitem field (entry entries field)
  end.

(** The loop over [required_fields]: the first field that is not in
    [data], if any. *)
Fixpoint first_missing (data : Posted.t) (fields : list string)
    : result (option string) :=
  match fields with
  | [] => Ok None
  | field :: fields =>
      has_field data field ≫= λ present : bool,
        if present then first_missing data fields else Ok (Some field)
  end.

(** [value in strings]: the string that the value is, when it is one of
    the list. *)
Definition among (strings : list string) (v : Json.value) : option string :=
  match v with
  | Json.Str s => if bool_decide (s ∈ strings) then Some s else None
  | _ => None
  end.

Definition float_between (lo hi : Z) (x : Json.float) : bool :=
  match x with
  | Json.Finite q => Qle_bool (inject_Z lo) q && Qle_bool q (inject_Z hi)
  | Json.NaN | Json.Infinity _ => false
  end.

(** [10 <= duration <= 25]: a boolean counts as 0 or 1, and a value that
    is not a number raises [TypeError]. *)
Definition duration_in_range (duration : Json.value) : result bool :=
  match duration with
  | Json.Int n => Ok ((10 <=? n)%Z && (n <=? 25)%Z)
  | Json.Bool b => Ok ((10 <=? Z.b2z b)%Z && (Z.b2z b <=? 25)%Z)
  | Json.Float x => Ok (float_between 10 25 x)
  | Json.Null | Json.Str _ | Json.Compound =>
      Raise "'<=' not supported between instances of 'int' and another type"
  end.

(** The [try] block of [generate_video]. *)
Definition generate_video_body (uuid now : string) (data : Posted.t)
    (st : backend) : result (response * backend) :=
  first_missing data required_fields ≫= λ missing : option string,
  match missing with
  | Some field =>
      Ok (Response 400 (ErrorBody ("Missing required field: " +:+ field)), st)
  | None =>
      story ← subscript data "story";
      match among BIBLE_STORIES story with
      | None => Ok (Response 400 (ErrorBody "Invalid story selection"), st)
      | Some story =>
          duration ← subscript data "duration";
          in_range ← duration_in_range duration;
          if negb in_range then
            Ok (Response 400
                  (ErrorBody "Duration must be between 10 and 25 minutes"), st)
          else
            resolution ← subscript data "resolution";
            match among valid_resolutions resolution with
            | None => Ok (Response 400 (ErrorBody "Invalid resolution"), st)
            | Some resolution =>
                let job_id := uuid in
                tiktok ← subscript data "tiktok";
                let job_data :=
                  {| Job.job_id := job_id;
                     Job.story := story;
                     Job.duration := duration;
                     Job.resolution := resolution;
                     Job.tiktok := tiktok;
                     Job.status := queued;
                     Job.progress := 0;
                     Job.created_at := now;
                     Job.updated_at := None;
                     Job.error := None |} in
                Ok (Response 200
                      (AcceptedBody job_id queued "Video generation started"),
                    {| redis := <[job_key job_id := job_data]> (redis st);
                       celery_queue := celery_queue st ++ [(job_id, data)] |})
            end
      end
  end.

(** [POST /generate]; [uuid] is [str(uuid.uuid4())], [now] the time
    stamp of the call and [data] what [request.get_json()] yields.  An
    exception of the [try] block is answered with 500. *)
Definition generate_video (uuid now : string) (data : Posted.t)
    (st : backend) : response * backend :=
  match generate_video_body uuid now data st with
  | Ok answer => answer
  | Raise _ => (Response 500 (ErrorBody "Internal server error"), st)
  end.

(** [GET /status/<job_id>] *)
Definition get_job_status (job_id : string) (st : backend) : response :=
  match redis st !! job_key job_id with
  | None => Response 404 (ErrorBody "Job not found")
  | Some job_info =>
      Response 200
        (StatusBody job_id (Job.status job_info) (Job.progress job_info)
           (Job.created_at job_info) (Job.error job_info))
  end.

(** [GET /download/<job_id>]; [exists] is [os.path.exists]. *)
Definition download_video (exists_ : string → bool) (job_id : string)
    (st : backend) : response :=
  match redis st !! job_key job_id with
  | None => Response 404 (ErrorBody "Job not found")
  | Some job_info =>
      if negb (bool_decide (Job.status job_info = completed)) then
        Response 400 (ErrorBody "Video not ready for download")
      else
        let video_path := "/tmp/videos/" +:+ job_id +:+ ".mp4" in
        if exists_ video_path then
          Response 200 (FileBody video_path (Job.story job_info +:+ ".mp4"))
        else Response 404 (ErrorBody "Video file not found")
  end.

(** A request of the worker's types, as the JSON object that carries
    it. *)
Definition posted (request_data : Request.t) : Posted.t :=
  Posted.Object
    {| Posted.story := Json.Str <$> Request.story request_data;
       Posted.duration := Json.Int <$> Request.duration request_data;
       Posted.resolution := Json.Str <$> Request.resolution request_data;
       Posted.tiktok := Json.Bool <$> Request.tiktok request_data |}.

Definition as_str (v : option Json.value) : option (option string) :=
  match v with
  | None => Some None
  | Some (Json.Str s) => Some (Some s)
  | Some _ => None
  end.

Definition as_int (v : option Json.value) : option (option Z) :=
  match v with
  | None => Some None
  | Some (Json.Int n) => Some (Some n)
  | Some _ => None
  end.

Definition as_bool (v : option Json.value) : option (option bool) :=
  match v with
  | None => Some None
  | Some (Json.Bool b) => Some (Some b)
  | Some _ => None
  end.

(** The message of the queue as the task's [request_data], when it is an
    object whose entries have the worker's types. *)
Definition as_request (data : Posted.t) : option Request.t :=
  match data with
  | Posted.Object entries =>
      story ← as_str (Posted.story entries);
      duration ← as_int (Posted.duration entries);
      resolution ← as_str (Posted.resolution entries);
      tiktok ← as_bool (Posted.tiktok entries);
      Some (Request.Build story duration resolution tiktok)
  | _ => None
  end.

(** A worker takes the oldest message and runs the task.  A message
    outside the worker's types (a fractional duration, a flag that is
    not a boolean) is beyond this model and is left where it is. *)
Definition worker_step (env : Env) (clock : nat → string)
    (st : backend) : backend :=
  match celery_queue st with
  | [] => st
  | (job_id, data) :: rest =>
      match as_request data with
      | Some request_data =>
          {| redis := worker_run env clock job_id request_data (redis st);
             celery_queue := rest |}
      | None => st
      end
  end.

(** ** Sample inputs *)

Definition sample_scene (n : Z) : Scene.t :=
  {| Scene.scene_number := Some n;
     Scene.duration := Some 30;
     Scene.narration := Some "And the rain was upon the earth";
     Scene.image_description := Some "An ark upon the waters";
     Scene.timing_start := Some ((n - 1) * 30);
     Scene.timing_end := Some (n * 30) |}.

Definition sample_script : Script.t :=
  {| Script.title := Some "Noah's Ark";
     Script.scenes := Some [sample_scene 1; sample_scene 2] |}.

Definition sample_request : Request.t :=
  {| Request.story := Some "Noah's Ark";
     Request.duration := Some 15;
     Request.resolution := Some "Full HD";
     Request.tiktok := Some false |}.

(** Every collaborator answers. *)
Definition sample_env : Env :=
  {| openai_chat := λ _ _ _, Ok "{ title: Noah's Ark }";
     json_loads := λ _, Some sample_script;
     replicate_download := λ _ _ _, Ok 200;
     elevenlabs_generate := λ _ _, Ok [];
     makedirs := λ _, Ok tt;
     write_file := λ _, Ok tt;
     path_exists := λ _, true;
     subprocess_run := λ _, Ok 0;
     s3_bucket_name := None;
     s3_upload_file := λ _ _ _, Ok tt |}.

(** ffmpeg exits with status 1 on every command. *)
Definition ffmpeg_failing_env : Env :=
  {| openai_chat := openai_chat sample_env;
     json_loads := json_loads sample_env;
     replicate_download := replicate_download sample_env;
     elevenlabs_generate := elevenlabs_generate sample_env;
     makedirs := makedirs sample_env;
     write_file := write_file sample_env;
     path_exists := path_exists sample_env;
     subprocess_run := λ _, Ok 1;
     s3_bucket_name := None;
     s3_upload_file := s3_upload_file sample_env |}.

(** The image service fails for the second scene only. *)
Definition one_image_missing_env : Env :=
  {| openai_chat := openai_chat sample_env;
     json_loads := json_loads sample_env;
     replicate_download := λ i _ _,
       if bool_decide (i = 1%nat) then Raise "replicate: prediction failed" else Ok 200;
     elevenlabs_generate := elevenlabs_generate sample_env;
     makedirs := makedirs sample_env;
     write_file := write_file sample_env;
     path_exists := path_exists sample_env;
     subprocess_run := subprocess_run sample_env;
     s3_bucket_name := None;
     s3_upload_file := s3_upload_file sample_env |}.

(** A bucket is configured and every upload raises. *)
Definition s3_failing_env : Env :=
  {| openai_chat := openai_chat sample_env;
     json_loads := json_loads sample_env;
     replicate_download := replicate_download sample_env;
     elevenlabs_generate := elevenlabs_generate sample_env;
     makedirs := makedirs sample_env;
     write_file := write_file sample_env;
     path_exists := path_exists sample_env;
     subprocess_run := subprocess_run sample_env;
     s3_bucket_name := Some "bible-videos";
     s3_upload_file := λ _ _ _, Raise "An error occurred (AccessDenied)" |}.

(** The completion is prose, not JSON. *)
Definition prose_env : Env :=
  {| openai_chat := λ _ _ _, Ok "Here is your script: ...";
     json_loads := λ _, None;
     replicate_download := replicate_download sample_env;
     elevenlabs_generate := elevenlabs_generate sample_env;
     makedirs := makedirs sample_env;
     write_file := write_file sample_env;
     path_exists := path_exists sample_env;
     subprocess_run := subprocess_run sample_env;
     s3_bucket_name := None;
     s3_upload_file := s3_upload_file sample_env |}.

(** No scratch file is on disk when the composition looks for it. *)
Definition missing_files_env : Env :=
  {| openai_chat := openai_chat sample_env;
     json_loads := json_loads sample_env;
     replicate_download := replicate_download sample_env;
     elevenlabs_generate := elevenlabs_generate sample_env;
     makedirs := makedirs sample_env;
     write_file := write_file sample_env;
     path_exists := λ _, false;
     subprocess_run := subprocess_run sample_env;
     s3_bucket_name := None;
     s3_upload_file := s3_upload_file sample_env |}.


Definition sample_audio_files : list Audio.t :=
  [ {| Audio.scene_number := 1; Audio.audio_path := Some (audio_file 0);
       Audio.duration := Qmake 44100 22050 |};
    {| Audio.scene_number := 2; Audio.audio_path := Some (audio_file 1);
       Audio.duration := Qmake 44100 22050 |} ].

Definition sample_clock (n : nat) : string := "2024-01-01T00:00:" +:+ pretty n.

Definition empty_backend : backend := {| redis := ∅; celery_queue := [] |}.

(** The backend after one accepted submission. *)
Definition sample_backend : backend :=
  (generate_video "job-1" "2024-01-01T00:00:00" (posted sample_request)
     empty_backend).2.

(** ** Vocabulary of the properties *)

(** The four checkpoints written before composition. *)
Definition checkpoints (job_id : string) : list effect :=
  [ UpdateJobProgress job_id processing 10 None;
    UpdateJobProgress job_id processing 20 None;
    UpdateJobProgress job_id processing 40 None;
    UpdateJobProgress job_id processing 60 None ].

(** A call that can only change the record of [job_id]. *)
Definition targets (job_id : string) (e : effect) : Prop :=
  match e with
  | UpdateJobProgress id _ _ _ => id = job_id
  | S3Upload _ _ _ => True
  end.

(** The effect of a call on the record it finds. *)
Definition record_step (now : string) (e : effect) (job_info : Job.t) : Job.t :=
  match e with
  | UpdateJobProgress _ st pr err => updated now st pr err job_info
  | S3Upload _ _ _ => job_info
  end.

Fixpoint run_record (clock : nat → string) (n : nat) (es : list effect)
    (job_info : Job.t) : Job.t :=
  match es with
  | [] => job_info
  | e :: es => run_record clock (S n) es (record_step (clock n) e job_info)
  end.

Fixpoint record_trace (clock : nat → string) (n : nat) (es : list effect)
    (job_info : Job.t) : list Job.t :=
  job_info :: match es with
              | [] => []
              | e :: es => record_trace clock (S n) es (record_step (clock n) e job_info)
              end.

(** The job's record as a reader of the store sees it: before the run
    and after each call of the run. *)
Definition job_history (clock : nat → string) (es : list effect)
    (db : gmap string Job.t) (job_id : string) : list Job.t :=
  omap (λ db', db' !! job_key job_id) (store_trace clock 0 es db).

(** The job's record after each call of the run. *)
Definition job_writes (clock : nat → string) (es : list effect)
    (db : gmap string Job.t) (job_id : string) : list Job.t :=
  tail (job_history clock es db job_id).

(** The progress value of the last checkpoint among the calls: the last
    [processing] update's. *)
Definition last_checkpoint (es : list effect) : Z :=
  foldl (λ acc e,
           match e with
           | UpdateJobProgress _ processing pr _ => pr
           | _ => acc
           end) 0 es.

(** The status changes the design allows. *)
Inductive transition : status → status → Prop :=
| queued_processing : transition queued processing
| processing_processing : transition processing processing
| processing_completed : transition processing completed
| processing_failed : transition processing failed.

(** A scene for which the composition loop finds both artifacts. *)
Definition provisioned (env : Env) (images : list Image.t)
    (audio_files : list Audio.t) (scene : Scene.t) : bool :=
  match next_image_path images scene, next_audio_path audio_files scene with
  | Ok image_path, Ok audio_path => usable env image_path audio_path
  | _, _ => false
  end.

(** In the words of the design: a file reference that is not null and
    whose file is on disk. *)
Definition file_present (env : Env) (path : option string) : bool :=
  match path with
  | Some p => path_exists env p
  | None => false
  end.

(** The image and audio records made for a scene provision it fully:
    neither lacks its artifact. *)
Definition fully_provisioned (env : Env) (records : Image.t * Audio.t) : Prop :=
  file_present env (Image.image_path records.1) = true
  ∧ file_present env (Audio.audio_path records.2) = true.

#[global] Instance fully_provisioned_dec env records :
  Decision (fully_provisioned env records).
Proof. unfold fully_provisioned. apply _. Defined.

(** ffmpeg and the scratch directory of the composition work. *)
Definition composition_tools_ok (env : Env) : Prop :=
  makedirs env "/tmp/video_segments" = Ok tt
  ∧ write_file env "/tmp/concat_list.txt" = Ok tt
  ∧ ∀ cmd, subprocess_run env cmd = Ok 0.

(** The first three stages of a run return these values and the output
    directory can be made. *)
Definition stages_produce (env : Env) (request_data : Request.t)
    (script_data : Script.t) (scenes : list Scene.t) (images : list Image.t)
    (audio_files : list Audio.t) : Prop :=
  ∃ story duration resolution tiktok,
    request_data = Request.Build (Some story) (Some duration) (Some resolution) (Some tiktok)
    ∧ generate_script env story duration tiktok = Ok script_data
    ∧ Script.scenes script_data = Some scenes
    ∧ generate_images env scenes resolution = Ok images
    ∧ generate_voiceover env script_data = Ok audio_files
    ∧ makedirs env "/tmp/videos" = Ok tt.

(** The scene numbers of a scene list, in list order. *)
Definition scene_numbers (scenes : list Scene.t) : list Z :=
  omap Scene.scene_number scenes.

(** A scene of the Script data model: it has a number and a duration. *)
Definition well_formed (scene : Scene.t) : Prop :=
  is_Some (Scene.scene_number scene) ∧ is_Some (Scene.duration scene).

(** The conditions of [POST /generate] on the entries of an object. *)
Definition known_story (v : Json.value) : Prop :=
  ∃ s, v = Json.Str s ∧ s ∈ BIBLE_STORIES.

Definition valid_resolution (v : Json.value) : Prop :=
  ∃ s, v = Json.Str s ∧ s ∈ valid_resolutions.

(** A value that Python compares with an integer. *)
Definition numeric (v : Json.value) : Prop :=
  match v with
  | Json.Bool _ | Json.Int _ | Json.Float _ => True
  | Json.Null | Json.Str _ | Json.Compound => False
  end.

(** A number between 10 and 25. *)
Definition within_bounds (v : Json.value) : Prop :=
  match v with
  | Json.Int n => 10 ≤ n ≤ 25
  | Json.Float (Json.Finite q) => (inject_Z 10 <= q)%Q ∧ (q <= inject_Z 25)%Q
  | _ => False
  end.

(** The first required field that an object lacks. *)
Definition first_missing_entry (entries : Posted.fields) : option string :=
  match Posted.story entries, Posted.duration entries,
        Posted.resolution entries, Posted.tiktok entries with
  | None, _, _, _ => Some "story"
  | Some _, None, _, _ => Some "duration"
  | Some _, Some _, None, _ => Some "resolution"
  | Some _, Some _, Some _, None => Some "tiktok"
  | Some _, Some _, Some _, Some _ => None
  end.




(** A scene with the four keys that the stages read. *)
Definition complete_scene (scene : Scene.t) : Prop :=
  is_Some (Scene.scene_number scene) ∧ is_Some (Scene.duration scene)
  ∧ is_Some (Scene.narration scene) ∧ is_Some (Scene.image_description scene).

(** The image service, the speech service, the scratch file system and
    ffmpeg all answer: every download has status 200, every file that is
    looked for exists and every command exits with 0. *)
Definition collaborators_ok (env : Env) : Prop :=
  (∀ i description dimensions,
      replicate_download env i description dimensions = Ok 200)
  ∧ (∀ i narration, ∃ audio, elevenlabs_generate env i narration = Ok audio)
  ∧ (∀ path, makedirs env path = Ok tt)
  ∧ (∀ path, write_file env path = Ok tt)
  ∧ (∀ path, path_exists env path = true)
  ∧ (∀ cmd, subprocess_run env cmd = Ok 0).

(** The first required field that a request lacks, in the order in which
    the task reads them. *)
Definition first_missing_field (request_data : Request.t) : option string :=
  match Request.story request_data, Request.duration request_data,
        Request.resolution request_data, Request.tiktok request_data with
  | None, _, _, _ => Some "story"
  | Some _, None, _, _ => Some "duration"
  | Some _, Some _, None, _ => Some "resolution"
  | Some _, Some _, Some _, None => Some "tiktok"
  | Some _, Some _, Some _, Some _ => None
  end.

(** The text-generation service raises with the given text. *)
Definition openai_failing_env (msg : string) : Env :=
  {| openai_chat := λ _ _ _, Raise msg;
     json_loads := json_loads sample_env;
     replicate_download := replicate_download sample_env;
     elevenlabs_generate := elevenlabs_generate sample_env;
     makedirs := makedirs sample_env;
     write_file := write_file sample_env;
     path_exists := path_exists sample_env;
     subprocess_run := subprocess_run sample_env;
     s3_bucket_name := None;
     s3_upload_file := s3_upload_file sample_env |}.

(** A script whose second scene has no [scene_number] key. *)
Definition unnumbered_scene : Scene.t :=
  {| Scene.scene_number := None;
     Scene.duration := Some 30;
     Scene.narration := Some "And the waters prevailed";
     Scene.image_description := Some "Rain over the hills";
     Scene.timing_start := Some 30;
     Scene.timing_end := Some 60 |}.

Definition malformed_script_env : Env :=
  {| openai_chat := openai_chat sample_env;
     json_loads := λ _,
       Some {| Script.title := Some "Noah's Ark";
               Script.scenes := Some [sample_scene 1; unnumbered_scene] |};
     replicate_download := replicate_download sample_env;
     elevenlabs_generate := elevenlabs_generate sample_env;
     makedirs := makedirs sample_env;
     write_file := write_file sample_env;
     path_exists := path_exists sample_env;
     subprocess_run := subprocess_run sample_env;
     s3_bucket_name := None;
     s3_upload_file := s3_upload_file sample_env |}.

(** A scene with a number but without a [duration] key. *)
Definition scene_without_duration : Scene.t :=
  {| Scene.scene_number := Some 2;
     Scene.duration := None;
     Scene.narration := Some "And the waters prevailed";
     Scene.image_description := Some "Rain over the hills";
     Scene.timing_start := Some 30;
     Scene.timing_end := Some 60 |}.

(** The speech service raises for every scene. *)
Definition speech_failing_env : Env :=
  {| openai_chat := openai_chat sample_env;
     json_loads := json_loads sample_env;
     replicate_download := replicate_download sample_env;
     elevenlabs_generate := λ _ _, Raise "elevenlabs: quota exceeded";
     makedirs := makedirs sample_env;
     write_file := write_file sample_env;
     path_exists := path_exists sample_env;
     subprocess_run := subprocess_run sample_env;
     s3_bucket_name := None;
     s3_upload_file := s3_upload_file sample_env |}.

(** The image of the second scene fails and ffmpeg exits with 1. *)
Definition degraded_ffmpeg_failing_env : Env :=
  {| openai_chat := openai_chat sample_env;
     json_loads := json_loads sample_env;
     replicate_download := replicate_download one_image_missing_env;
     elevenlabs_generate := elevenlabs_generate sample_env;
     makedirs := makedirs sample_env;
     write_file := write_file sample_env;
     path_exists := path_exists sample_env;
     subprocess_run := λ _, Ok 1;
     s3_bucket_name := None;
     s3_upload_file := s3_upload_file sample_env |}.


(** A script that numbers both of its scenes 1. *)
Definition twin_script : Script.t :=
  {| Script.title := Some "Noah's Ark";
     Script.scenes := Some [sample_scene 1; sample_scene 1] |}.

(** * Properties *)

(** ** The job store under a run's calls *)

Lemma update_job_progress_present now job_id st pr err db job_info :
  db !! job_key job_id = Some job_info →
  update_job_progress now job_id st pr err db !! job_key job_id
  = Some (updated now st pr err job_info).
Proof.
  intros Hdb. unfold update_job_progress. rewrite Hdb.
  apply lookup_insert_eq.
Qed.

Lemma update_job_progress_absent now job_id st pr err db :
  db !! job_key job_id = None →
  update_job_progress now job_id st pr err db = db.
Proof. intros Hdb. unfold update_job_progress. by rewrite Hdb. Qed.

Lemma run_effect_present now job_id e db job_info :
  targets job_id e →
  db !! job_key job_id = Some job_info →
  run_effect now e db !! job_key job_id = Some (record_step now e job_info).
Proof.
  destruct e as [id st pr err|]; simpl; [|done].
  intros ->. apply update_job_progress_present.
Qed.

Lemma run_effect_absent now job_id e db :
  targets job_id e →
  db !! job_key job_id = None →
  run_effect now e db = db.
Proof.
  destruct e as [id st pr err|]; simpl; [|done].
  intros ->. apply update_job_progress_absent.
Qed.

Lemma run_effects_present clock job_id es : ∀ n db job_info,
  Forall (targets job_id) es →
  db !! job_key job_id = Some job_info →
  run_effects clock n es db !! job_key job_id
  = Some (run_record clock n es job_info).
Proof.
  induction es as [|e es IH]; intros n db job_info Hes Hdb; [done|].
  inversion_clear Hes as [|? ? He Hes']. simpl.
  apply IH; [done|]. by apply run_effect_present.
Qed.

Lemma run_effects_absent clock job_id es : ∀ n db,
  Forall (targets job_id) es →
  db !! job_key job_id = None →
  run_effects clock n es db = db.
Proof.
  induction es as [|e es IH]; intros n db Hes Hdb; [done|].
  inversion_clear Hes as [|? ? He Hes']. simpl.
  rewrite (run_effect_absent _ job_id) by done. by apply IH.
Qed.

Lemma store_trace_present clock job_id es : ∀ n db job_info,
  Forall (targets job_id) es →
  db !! job_key job_id = Some job_info →
  omap (λ db', db' !! job_key job_id) (store_trace clock n es db)
  = record_trace clock n es job_info.
Proof.
  induction es as [|e es IH]; intros n db job_info Hes Hdb.
  - simpl. by rewrite Hdb.
  - inversion_clear Hes as [|? ? He Hes'].
    cbn [store_trace record_trace omap list_omap]. rewrite Hdb. f_equal.
    apply IH; [done|]. by apply run_effect_present.
Qed.

Lemma store_trace_absent clock job_id es : ∀ n db,
  Forall (targets job_id) es →
  db !! job_key job_id = None →
  omap (λ db', db' !! job_key job_id) (store_trace clock n es db) = [].
Proof.
  induction es as [|e es IH]; intros n db Hes Hdb.
  - simpl. by rewrite Hdb.
  - inversion_clear Hes as [|? ? He Hes'].
    cbn [store_trace omap list_omap]. rewrite Hdb.
    rewrite (run_effect_absent _ job_id) by done. by apply IH.
Qed.

Lemma run_record_snoc clock es e : ∀ n job_info,
  run_record clock n (es ++ [e]) job_info
  = record_step (clock (n + length es)%nat) e (run_record clock n es job_info).
Proof.
  induction es as [|e' es IH]; intros n job_info; simpl.
  - by rewrite Nat.add_0_r.
  - rewrite IH. by rewrite Nat.add_succ_r.
Qed.

(** ** The calls of a run *)

Lemma upload_effects env job_id output_path :
  outcome (upload env job_id output_path) = Ok tt
  ∧ effects (upload env job_id output_path)
    = if truthy (s3_bucket_name env)
      then [S3Upload output_path (default "" (s3_bucket_name env))
              ("videos/" +:+ job_id +:+ ".mp4")]
      else [].
Proof.
  unfold upload. destruct (truthy (s3_bucket_name env)); [|done].
  unfold try_except. cbn.
  destruct (s3_upload_file env _ _ _) as [[]|msg]; cbn; auto.
Qed.

Lemma finish_effects env job_id output_path success :
  outcome (finish env job_id output_path success) = Ok tt
  ∧ effects (finish env job_id output_path success)
    = if success then
        UpdateJobProgress job_id processing 90 None
        :: effects (upload env job_id output_path)
        ++ [UpdateJobProgress job_id completed 100 None]
      else [UpdateJobProgress job_id failed 0 (Some "Video stitching failed")].
Proof.
  destruct (upload_effects env job_id output_path) as [Hout _].
  unfold finish. destruct success; [|done].
  unfold mbind, task_bind. rewrite Hout. done.
Qed.

Lemma run_stages_effects env job_id request_data :
  match outcome (run_stages env job_id request_data) with
  | Ok (output_path, _) =>
      effects (run_stages env job_id request_data) = checkpoints job_id
      ∧ output_path = output_file job_id
  | Raise _ =>
      ∃ k, (k ≤ 4)%nat
        ∧ effects (run_stages env job_id request_data) = take k (checkpoints job_id)
  end.
Proof.
  unfold run_stages.
  destruct request_data as [[story|] [duration|] [resolution|] [tiktok|]];
    cbn; try (by exists 0%nat; split; [lia|]).
  destruct (generate_script env story duration tiktok) as [script_data|];
    cbn; [|by exists 1%nat; split; [lia|]].
  destruct (Script.scenes script_data) as [scenes|] eqn:Hscenes;
    cbn; [|by exists 2%nat; split; [lia|]].
  destruct (generate_images env scenes resolution) as [images|];
    cbn; [|by exists 2%nat; split; [lia|]].
  destruct (generate_voiceover env script_data) as [audio_files|];
    cbn; [|by exists 3%nat; split; [lia|]].
  destruct (makedirs env "/tmp/videos") as [[]|];
    cbn; [done|by exists 4%nat; split; [lia|]].
Qed.

Lemma generate_video_task_effects env job_id request_data :
  effects (generate_video_task env job_id request_data)
  = effects (run_stages env job_id request_data)
    ++ match outcome (run_stages env job_id request_data) with
       | Ok (output_path, success) => effects (finish env job_id output_path success)
       | Raise msg => [UpdateJobProgress job_id failed 0 (Some msg)]
       end.
Proof.
  unfold generate_video_task, try_except, mbind, task_bind.
  destruct (outcome (run_stages env job_id request_data)) as [[out success]|msg];
    cbn [effects outcome]; [|done].
  destruct (finish_effects env job_id out success) as [-> _]. done.
Qed.

(** A run either stops at a failure after at most four checkpoints, or
    goes through all six updates, with the upload in between. *)
Lemma generate_video_task_shape env job_id request_data :
  (∃ k msg,
      (k ≤ 4)%nat
      ∧ (outcome (run_stages env job_id request_data) = Raise msg
         ∨ (k = 4%nat ∧ msg = "Video stitching failed"
            ∧ outcome (run_stages env job_id request_data)
              = Ok (output_file job_id, false)))
      ∧ effects (generate_video_task env job_id request_data)
        = take k (checkpoints job_id)
          ++ [UpdateJobProgress job_id failed 0 (Some msg)])
  ∨ (outcome (run_stages env job_id request_data) = Ok (output_file job_id, true)
     ∧ ∃ ups,
         ups = (if truthy (s3_bucket_name env)
                then [S3Upload (output_file job_id) (default "" (s3_bucket_name env))
                        ("videos/" +:+ job_id +:+ ".mp4")]
                else [])
         ∧ effects (generate_video_task env job_id request_data)
           = checkpoints job_id
             ++ UpdateJobProgress job_id processing 90 None
             :: ups ++ [UpdateJobProgress job_id completed 100 None]).
Proof.
  rewrite generate_video_task_effects.
  pose proof (run_stages_effects env job_id request_data) as Hstages.
  destruct (outcome (run_stages env job_id request_data))
    as [[out success]|msg].
  - destruct Hstages as [-> ->].
    destruct (finish_effects env job_id (output_file job_id) success) as [_ ->].
    destruct success.
    + right. split; [done|].
      destruct (upload_effects env job_id (output_file job_id)) as [_ Hups].
      eexists. split; [exact Hups|done].
    + left. exists 4%nat, "Video stitching failed". split; [lia|]. split; [|done].
      right. done.
  - destruct Hstages as (k & Hk & ->).
    left. exists k, msg. split; [done|]. split; [by left|done].
Qed.

Lemma generate_video_task_targets env job_id request_data :
  Forall (targets job_id) (effects (generate_video_task env job_id request_data)).
Proof.
  destruct (generate_video_task_shape env job_id request_data)
    as [(k & msg & Hk & _ & ->)|(_ & ups & Hups & ->)].
  - apply Forall_app. split; [|by repeat constructor].
    apply Forall_take. by repeat constructor.
  - apply Forall_app. split; [by repeat constructor|].
    constructor; [done|]. apply Forall_app. split; [|by repeat constructor].
    subst ups. destruct (truthy _); by repeat constructor.
Qed.

Lemma last_checkpoint_sample :
  last_checkpoint
    (effects (generate_video_task ffmpeg_failing_env "job-1" sample_request)) = 60.
Proof. reflexivity. Qed.

(** ** Failed jobs *)

(** C1, as stated, fails: when ffmpeg exits with an error the three
    generation stages have completed and the last checkpoint written is
    60, yet the record of the failed job shows progress 0. *)
Lemma failed_job_progress_is_not_last_checkpoint :
  ∃ job_info,
    worker_run ffmpeg_failing_env sample_clock "job-1" sample_request
      (redis sample_backend) !! job_key "job-1" = Some job_info
    ∧ Job.status job_info = failed
    ∧ last_checkpoint
        (effects (generate_video_task ffmpeg_failing_env "job-1" sample_request)) = 60
    ∧ Job.progress job_info ≠ 60.
Proof.
  eexists. split; [vm_compute; reflexivity|]. by vm_compute.
Qed.

(** C1, amended: a job that ends in status [failed] has progress 0 (so
    never 100), and its error field holds the failure message: the text
    of the exception when a stage raised with a non-empty text, and
    "Video stitching failed" when composition returned failure. *)
Theorem failed_job_progress_reset env clock job_id request_data db job_info :
  worker_run env clock job_id request_data db !! job_key job_id = Some job_info →
  Job.status job_info = failed →
  Job.progress job_info = 0
  ∧ Job.progress job_info ≠ 100
  ∧ (∀ msg, outcome (run_stages env job_id request_data) = Raise msg →
            msg ≠ "" → Job.error job_info = Some msg)
  ∧ (∀ output_path,
        outcome (run_stages env job_id request_data) = Ok (output_path, false) →
        Job.error job_info = Some "Video stitching failed").
Proof.
  unfold worker_run. intros Hrun Hfailed.
  pose proof (generate_video_task_targets env job_id request_data) as Htargets.
  destruct (db !! job_key job_id) as [j0|] eqn:Hdb; last first.
  { rewrite (run_effects_absent _ job_id) in Hrun by done. congruence. }
  rewrite (run_effects_present _ job_id _ _ _ j0) in Hrun by done.
  injection Hrun as <-.
  destruct (generate_video_task_shape env job_id request_data)
    as [(k & msg & Hk & Hout & Hes)|(_ & ups & Hups & Hes)];
    rewrite Hes in Hfailed |- *; clear Hes.
  - rewrite run_record_snoc. simpl. split; [done|]. split; [done|].
    assert (∀ m, m ≠ "" → (if negb (String.eqb m "") then Some m
                           else Job.error (run_record clock 0
                                  (take k (checkpoints job_id)) j0)) = Some m)
      as Herr.
    { intros m Hm. destruct (String.eqb_spec m ""); [done|done]. }
    split.
    + intros msg' Hraise Hne. destruct Hout as [Hout|(_ & _ & Hout)];
        [|congruence].
      rewrite Hout in Hraise. injection Hraise as ->. by apply Herr.
    + intros out Hok. destruct Hout as [Hout|(_ & -> & _)]; [congruence|].
      by apply Herr.
  - exfalso. revert Hfailed.
    rewrite app_comm_cons, app_assoc, run_record_snoc. simpl. done.
Qed.

Lemma failed_job_progress_reset_witness :
  ∃ job_info,
    worker_run ffmpeg_failing_env sample_clock "job-1" sample_request
      (redis sample_backend) !! job_key "job-1" = Some job_info
    ∧ Job.progress job_info = 0
    ∧ Job.error job_info = Some "Video stitching failed".
Proof.
  eexists. split; [vm_compute; reflexivity|].
  destruct (failed_job_progress_reset ffmpeg_failing_env sample_clock "job-1"
              sample_request (redis sample_backend) _
              ltac:(vm_compute; reflexivity) ltac:(reflexivity))
    as (Hprogress & _ & _ & Herror).
  split; [exact Hprogress|].
  apply (Herror (output_file "job-1")). vm_compute. reflexivity.
Defined.

(** ** Progress within one run *)

Lemma job_history_present clock es db job_id job_info :
  Forall (targets job_id) es →
  db !! job_key job_id = Some job_info →
  job_history clock es db job_id = record_trace clock 0 es job_info.
Proof. apply store_trace_present. Qed.

Lemma job_history_absent clock es db job_id :
  Forall (targets job_id) es →
  db !! job_key job_id = None →
  job_history clock es db job_id = [].
Proof. apply store_trace_absent. Qed.

(** The history of a run, by cases on how the run ends. *)
Lemma task_history_cases env clock job_id request_data db :
  let h := job_history clock
             (effects (generate_video_task env job_id request_data)) db job_id in
  h = []
  ∨ (∃ job_info k msg,
        (k ≤ 4)%nat
        ∧ h = record_trace clock 0
                (take k (checkpoints job_id)
                 ++ [UpdateJobProgress job_id failed 0 (Some msg)]) job_info)
  ∨ (∃ job_info ups,
        (ups = [] ∨ ∃ file bucket key, ups = [S3Upload file bucket key])
        ∧ h = record_trace clock 0
                (checkpoints job_id
                 ++ UpdateJobProgress job_id processing 90 None
                 :: ups ++ [UpdateJobProgress job_id completed 100 None]) job_info).
Proof.
  intros h. subst h.
  pose proof (generate_video_task_targets env job_id request_data) as Htargets.
  destruct (db !! job_key job_id) as [j0|] eqn:Hdb.
  - rewrite (job_history_present _ _ _ _ j0) by done.
    destruct (generate_video_task_shape env job_id request_data)
      as [(k & msg & Hk & _ & ->)|(_ & ups & Hups & ->)].
    + right. left. by exists j0, k, msg.
    + right. right. exists j0, ups. split; [|done].
      subst ups. destruct (truthy _); [right; eauto|by left].
  - left. by apply job_history_absent.
Qed.

(** C2, as stated, fails: in a run whose composition fails the values
    written are 10, 20, 40, 60 and then 0. *)
Lemma progress_drops_on_failure :
  Job.progress <$>
    job_writes sample_clock
      (effects (generate_video_task ffmpeg_failing_env "job-1" sample_request))
      (redis sample_backend) "job-1"
  = [10; 20; 40; 60; 0]
  ∧ ¬ Sorted Z.le [10; 20; 40; 60; 0].
Proof.
  split; [by vm_compute|].
  intros Hsorted. repeat (apply Sorted_inv in Hsorted as [Hsorted ?]).
  match goal with H : HdRel Z.le 60 _ |- _ => inversion H end. lia.
Qed.

(** C2, amended: within one run, a write whose status is not [failed]
    never stores a progress value lower than an earlier write of the
    run; the one write that lowers progress is the write that records
    the failure: it stores 0 and it is the last. *)
Theorem progress_monotone_until_failure env clock job_id request_data db i j a b :
  let writes := job_writes clock
                  (effects (generate_video_task env job_id request_data))
                  db job_id in
  (i ≤ j)%nat →
  writes !! i = Some a →
  writes !! j = Some b →
  (Job.status b ≠ failed → Job.progress a ≤ Job.progress b)
  ∧ (Job.status b = failed → Job.progress b = 0 ∧ length writes = S j).
Proof.
  intros writes Hij Ha Hb. subst writes. unfold job_writes in *.
  destruct (task_history_cases env clock job_id request_data db)
    as [H|[(j0 & k & msg & Hk & H)|(j0 & ups & Hups & H)]];
    rewrite H in Ha, Hb |- *; clear H.
  - done.
  - destruct k as [|[|[|[|[|k]]]]]; [..|lia];
      simpl in Ha, Hb |- *;
      repeat (destruct j as [|j]; simpl in Hb; [|try done]);
      simplify_eq; simpl;
      repeat (destruct i as [|i]; simpl in Ha; [|try done; try lia]);
      simplify_eq; simpl; by (split; intros; try lia).
  - destruct Hups as [->|(file & bucket & key & ->)];
      simpl in Ha, Hb |- *;
      repeat (destruct j as [|j]; simpl in Hb; [|try done]);
      simplify_eq; simpl;
      repeat (destruct i as [|i]; simpl in Ha; [|try done; try lia]);
      simplify_eq; simpl; by (split; intros; try lia).
Qed.

Lemma progress_monotone_until_failure_witness :
  ∃ a b,
    job_writes sample_clock
      (effects (generate_video_task sample_env "job-1" sample_request))
      (redis sample_backend) "job-1" !! 1%nat = Some a
    ∧ job_writes sample_clock
        (effects (generate_video_task sample_env "job-1" sample_request))
        (redis sample_backend) "job-1" !! 4%nat = Some b
    ∧ Job.progress a ≤ Job.progress b.
Proof.
  eexists _, _. split; [vm_compute; reflexivity|].
  split; [vm_compute; reflexivity|].
  apply (progress_monotone_until_failure sample_env sample_clock "job-1"
           sample_request (redis sample_backend) 1 4).
  - lia.
  - vm_compute. reflexivity.
  - vm_compute. reflexivity.
  - vm_compute. discriminate.
Defined.

(** ** Status transitions *)

(** *** The handler of [POST /generate] *)

Lemma among_Some strings v s :
  among strings v = Some s ↔ v = Json.Str s ∧ s ∈ strings.
Proof.
  unfold among. destruct v as [| | | |s'|]; try (split; [done|by intros [? _]]).
  case_bool_decide as Hin.
  - split; [by intros [= <-]|by intros [[= <-] _]].
  - split; [done|]. by intros [[= <-] ?].
Qed.

Lemma among_None strings v :
  among strings v = None ↔ ¬ ∃ s, v = Json.Str s ∧ s ∈ strings.
Proof.
  split.
  - intros Hnone (s & Hs). apply among_Some in Hs. congruence.
  - intros Hnot. destruct (among strings v) as [s|] eqn:Hs; [|done].
    exfalso. apply Hnot. exists s. by apply among_Some.
Qed.

Lemma duration_in_range_true duration :
  duration_in_range duration = Ok true ↔ within_bounds duration.
Proof.
  destruct duration as [|b|n|[| |q]|s|]; simpl; try (split; [done|done]).
  - split; [|done]. intros [= Hb]. destruct b; simpl in Hb; done.
  - split.
    + intros [= [??]%andb_prop]. lia.
    + intros ?. f_equal. apply andb_true_intro. split; lia.
  - split.
    + intros [= [??]%andb_prop]. by split; apply Qle_bool_iff.
    + intros [??]. f_equal. apply andb_true_intro.
      by split; apply Qle_bool_iff.
Qed.

Lemma duration_in_range_raises duration :
  (∃ msg, duration_in_range duration = Raise msg) ↔ ¬ numeric duration.
Proof.
  destruct duration; simpl; split; try done; try by eauto.
  all: by intros [? ?] || (intros Hn; by destruct Hn).
Qed.

Lemma duration_in_range_false duration :
  duration_in_range duration = Ok false
  ↔ numeric duration ∧ ¬ within_bounds duration.
Proof.
  pose proof (duration_in_range_true duration) as Htrue.
  destruct duration as [|b|n|x|s|]; simpl in *; try (split; [done|by intros [[] _]]).
  all: split;
    [intros Hfalse; split; [done|]; intros Hin; apply Htrue in Hin; congruence
    |intros [_ Hout];
     match goal with
     | |- Ok ?b = _ => destruct b eqn:Hb; [|done]
     end; exfalso; apply Hout, Htrue; by f_equal].
Qed.

(** The answer to an object that has the four required fields. *)
Lemma generate_video_object uuid now story duration resolution tiktok st :
  generate_video uuid now
    (Posted.Object
       (Posted.Fields (Some story) (Some duration) (Some resolution) (Some tiktok)))
    st
  = match among BIBLE_STORIES story with
    | None => (Response 400 (ErrorBody "Invalid story selection"), st)
    | Some story_name =>
        match duration_in_range duration with
        | Raise _ => (Response 500 (ErrorBody "Internal server error"), st)
        | Ok false =>
            (Response 400 (ErrorBody "Duration must be between 10 and 25 minutes"),
             st)
        | Ok true =>
            match among valid_resolutions resolution with
            | None => (Response 400 (ErrorBody "Invalid resolution"), st)
            | Some resolution_name =>
                (Response 200
                   (AcceptedBody uuid queued "Video generation started"),
                 {| redis :=
                      <[job_key uuid :=
                          Job.Build uuid story_name duration resolution_name
                            tiktok queued 0 now None None]> (redis st);
                    celery_queue :=
                      celery_queue st
                      ++ [(uuid,
                           Posted.Object
                             (Posted.Fields (Some story) (Some duration)
                                (Some resolution) (Some tiktok)))] |})
            end
        end
    end.
Proof.
  unfold generate_video, generate_video_body.
  cbn -[among duration_in_range BIBLE_STORIES valid_resolutions].
  destruct (among BIBLE_STORIES story) as [story_name|]; [|done].
  cbn -[among duration_in_range BIBLE_STORIES valid_resolutions].
  destruct (duration_in_range duration) as [[]|]; [|done..].
  cbn -[among duration_in_range BIBLE_STORIES valid_resolutions].
  by destruct (among valid_resolutions resolution).
Qed.

(** The answer to an object that lacks a required field. *)
Lemma generate_video_missing uuid now entries st field :
  first_missing_entry entries = Some field →
  generate_video uuid now (Posted.Object entries) st
  = (Response 400 (ErrorBody ("Missing required field: " +:+ field)), st).
Proof.
  destruct entries as [[story|] [duration|] [resolution|] [tiktok|]];
    cbn; by intros [= <-].
Qed.


Lemma as_request_posted request_data :
  as_request (posted request_data) = Some request_data.
Proof. by destruct request_data as [[?|] [?|] [?|] [?|]]. Qed.

Lemma generate_video_accepted uuid now data st :
  code (generate_video uuid now (posted data) st).1 = 200 →
  ∃ story duration resolution tiktok,
    data = Request.Build (Some story) (Some duration) (Some resolution) (Some tiktok)
    ∧ story ∈ BIBLE_STORIES
    ∧ (10 ≤ duration ≤ 25)
    ∧ resolution ∈ valid_resolutions
    ∧ generate_video uuid now (posted data) st
      = (Response 200 (AcceptedBody uuid queued "Video generation started"),
         {| redis :=
              <[job_key uuid :=
                  Job.Build uuid story (Json.Int duration) resolution
                    (Json.Bool tiktok) queued 0 now None None]> (redis st);
            celery_queue := celery_queue st ++ [(uuid, posted data)] |}).
Proof.
  destruct data as [[story|] [duration|] [resolution|] [tiktok|]];
    unfold posted;
    cbn [fmap option_fmap option_map Request.story Request.duration
           Request.resolution Request.tiktok];
    try (erewrite generate_video_missing by reflexivity; discriminate).
  rewrite generate_video_object.
  destruct (among BIBLE_STORIES (Json.Str story)) as [story_name|] eqn:Hstory;
    [|done].
  apply among_Some in Hstory as [[= <-] Hstory].
  destruct (duration_in_range (Json.Int duration)) as [[]|] eqn:Hduration;
    [|done..].
  apply duration_in_range_true in Hduration.
  destruct (among valid_resolutions (Json.Str resolution)) as [resolution_name|]
    eqn:Hresolution; [|done].
  apply among_Some in Hresolution as [[= <-] Hresolution].
  intros _. by exists story, duration, resolution, tiktok.
Qed.

(** With an idle queue, the worker's next step runs the task of the job
    just submitted, on the request as it was posted. *)
Lemma worker_step_runs_submission env clock uuid now data st :
  celery_queue st = [] →
  code (generate_video uuid now (posted data) st).1 = 200 →
  worker_step env clock (generate_video uuid now (posted data) st).2
  = {| redis := worker_run env clock uuid data
                  (redis (generate_video uuid now (posted data) st).2);
       celery_queue := [] |}.
Proof.
  intros Hidle Hcode.
  destruct (generate_video_accepted uuid now data st Hcode)
    as (story & duration & resolution & tiktok & Hdata & _ & _ & _ & Hgen).
  rewrite Hgen. unfold worker_step. cbn [snd celery_queue redis].
  rewrite Hidle. cbn [app]. by rewrite as_request_posted.
Qed.

Lemma generate_video_task_first env job_id story duration resolution tiktok :
  ∃ rest,
    effects (generate_video_task env job_id
               (Request.Build (Some story) (Some duration) (Some resolution)
                  (Some tiktok)))
    = UpdateJobProgress job_id processing 10 None :: rest.
Proof.
  rewrite generate_video_task_effects.
  unfold run_stages at 1. cbn. eexists. reflexivity.
Qed.

(** C7: starting from the record that [POST /generate] creates, the
    status of the job moves only from queued to processing, from
    processing to processing, and from processing to completed or
    failed; nothing follows completed or failed; and the error field is
    changed only by the write that sets the status to failed. *)
Theorem status_transitions env clock uuid now data st :
  code (generate_video uuid now (posted data) st).1 = 200 →
  let h := job_history clock (effects (generate_video_task env uuid data))
             (redis (generate_video uuid now (posted data) st).2) uuid in
  (∃ created, h !! 0%nat = Some created
      ∧ Job.status created = queued ∧ Job.error created = None)
  ∧ (∀ i a b, h !! i = Some a → h !! S i = Some b →
        transition (Job.status a) (Job.status b)
        ∧ Job.status a ≠ completed ∧ Job.status a ≠ failed
        ∧ (Job.error b ≠ Job.error a → Job.status b = failed))
  ∧ (∀ i a, h !! i = Some a → Job.error a ≠ None → Job.status a = failed).
Proof.
  intros Hcode h. subst h.
  destruct (generate_video_accepted uuid now data st Hcode)
    as (story & duration & resolution & tiktok & -> & _ & _ & _ & ->).
  cbn [snd redis].
  set (data := Request.Build _ _ _ _).
  set (created := Job.Build _ _ _ _ _ _ _ _ _ _).
  rewrite (job_history_present _ _ _ _ created);
    [|apply generate_video_task_targets|apply lookup_insert_eq].
  destruct (generate_video_task_first env uuid story duration resolution tiktok)
    as [rest Hfirst]. fold data in Hfirst.
  destruct (generate_video_task_shape env uuid data)
    as [(k & msg & Hk & _ & Hes)|(_ & ups & Hups & Hes)];
    rewrite Hes in Hfirst |- *; clear Hes.
  - destruct k as [|[|[|[|[|k]]]]]; [discriminate Hfirst| | | | |lia];
      (split; [by exists created|]);
      (split; [intros i a b Ha Hb|intros i a Ha]);
      simpl in *;
      repeat (destruct i as [|i]; simpl in *; [|try done]);
      simplify_eq; simpl; repeat split; by (constructor || congruence).
  - subst ups. destruct (truthy (s3_bucket_name env));
      (split; [by exists created|]);
      (split; [intros i a b Ha Hb|intros i a Ha]);
      simpl in *;
      repeat (destruct i as [|i]; simpl in *; [|try done]);
      simplify_eq; simpl; repeat split; by (constructor || congruence).
Qed.

Lemma status_transitions_witness :
  ∃ a b,
    job_history sample_clock
      (effects (generate_video_task ffmpeg_failing_env "job-1" sample_request))
      (redis sample_backend) "job-1" !! 4%nat = Some a
    ∧ job_history sample_clock
        (effects (generate_video_task ffmpeg_failing_env "job-1" sample_request))
        (redis sample_backend) "job-1" !! 5%nat = Some b
    ∧ Job.status a = processing ∧ Job.status b = failed
    ∧ transition (Job.status a) (Job.status b).
Proof.
  eexists _, _. split; [vm_compute; reflexivity|].
  split; [vm_compute; reflexivity|]. split; [reflexivity|]. split; [reflexivity|].
  destruct (status_transitions ffmpeg_failing_env sample_clock "job-1"
              "2024-01-01T00:00:00" sample_request empty_backend
              ltac:(vm_compute; reflexivity)) as (_ & Hstep & _).
  refine (proj1 (Hstep 4%nat _ _ _ _)); vm_compute; reflexivity.
Defined.

(** ** The optional upload *)

(** C8: once composition has succeeded the job ends completed with
    progress 100, whatever [upload_file] does, raising included; and an
    upload is attempted exactly when [S3_BUCKET_NAME] is set to a
    non-empty value. *)
Theorem upload_failure_keeps_job_completed
    env clock job_id request_data db job_info output_path :
  outcome (run_stages env job_id request_data) = Ok (output_path, true) →
  db !! job_key job_id = Some job_info →
  (∃ final,
      worker_run env clock job_id request_data db !! job_key job_id = Some final
      ∧ Job.status final = completed
      ∧ Job.progress final = 100
      ∧ Job.error final = Job.error job_info)
  ∧ (∀ file bucket key,
        S3Upload file bucket key
          ∈ effects (generate_video_task env job_id request_data)
        ↔ truthy (s3_bucket_name env) = true
          ∧ file = output_file job_id
          ∧ s3_bucket_name env = Some bucket
          ∧ key = "videos/" +:+ job_id +:+ ".mp4").
Proof.
  intros Hok Hdb. unfold worker_run.
  rewrite (run_effects_present _ job_id _ _ _ job_info)
    by (done || apply generate_video_task_targets).
  destruct (generate_video_task_shape env job_id request_data)
    as [(k & msg & Hk & [Hout|(_ & _ & Hout)] & _)|(_ & ups & Hups & ->)];
    [congruence..|].
  subst ups. destruct (s3_bucket_name env) as [bucket|] eqn:Hbucket; simpl.
  - destruct (String.eqb bucket ""); simpl.
    + split; [by eexists|].
      intros file b key. rewrite !elem_of_cons, elem_of_nil.
      split; [|intros [? _]; done]. intros H. repeat destruct H as [H|H]; done.
    + split; [by eexists|].
      intros file b key. rewrite !elem_of_cons, elem_of_nil.
      split.
      * intros H. repeat destruct H as [H|H]; try done. by simplify_eq.
      * intros (_ & -> & [= ->] & ->). do 5 right. by left.
  - split; [by eexists|].
    intros file b key. rewrite !elem_of_cons, elem_of_nil.
    split; [|intros [? _]; done]. intros H. repeat destruct H as [H|H]; done.
Qed.

Lemma upload_failure_keeps_job_completed_witness :
  (∀ file bucket key, ∃ msg, s3_upload_file s3_failing_env file bucket key = Raise msg)
  ∧ ∃ final,
      worker_run s3_failing_env sample_clock "job-1" sample_request
        (redis sample_backend) !! job_key "job-1" = Some final
      ∧ Job.status final = completed
      ∧ Job.progress final = 100.
Proof.
  split; [intros; by eexists|].
  destruct (upload_failure_keeps_job_completed s3_failing_env sample_clock "job-1"
              sample_request (redis sample_backend) _ (output_file "job-1")
              ltac:(vm_compute; reflexivity) ltac:(vm_compute; reflexivity))
    as [(final & Hfinal & Hst & Hpr & _) _].
  exists final. by repeat split.
Defined.

(** ** Composition: which scenes are composed *)

Lemma segment_attempt_provisioned env dimensions images audio_files i scene :
  segment_attempt env dimensions images audio_files i scene = Ok true →
  provisioned env images audio_files scene = true.
Proof.
  unfold segment_attempt, provisioned.
  destruct (next_image_path images scene) as [image_path|]; [|done].
  destruct (next_audio_path audio_files scene) as [audio_path|]; [|done].
  cbn. by destruct (usable env image_path audio_path).
Qed.

Lemma segment_attempt_tools_ok env dimensions images audio_files i scene :
  (∀ cmd, subprocess_run env cmd = Ok 0) →
  provisioned env images audio_files scene = true →
  segment_attempt env dimensions images audio_files i scene = Ok true.
Proof.
  intros Hffmpeg. unfold segment_attempt, provisioned.
  destruct (next_image_path images scene) as [image_path|]; [|done].
  destruct (next_audio_path audio_files scene) as [audio_path|]; [|done].
  cbn. intros ->. by rewrite Hffmpeg.
Qed.

(** Only provisioned scenes are composed, in the order of the script. *)
Lemma segments_from_sublist env dimensions images audio_files scenes : ∀ i,
  (segments_from env dimensions images audio_files i scenes).*2
  `sublist_of` filter (λ scene, provisioned env images audio_files scene = true) scenes.
Proof.
  induction scenes as [|scene scenes IH]; intros i; [done|].
  simpl. rewrite filter_cons.
  destruct (segment_attempt env dimensions images audio_files i scene)
    as [[]|] eqn:Hattempt.
  - apply segment_attempt_provisioned in Hattempt.
    rewrite decide_True by done. simpl. by apply sublist_skip.
  - case_decide; [apply sublist_cons|]; apply IH.
  - case_decide; [apply sublist_cons|]; apply IH.
Qed.

Lemma segments_from_tools_ok env dimensions images audio_files scenes : ∀ i,
  (∀ cmd, subprocess_run env cmd = Ok 0) →
  (segments_from env dimensions images audio_files i scenes).*2
  = filter (λ scene, provisioned env images audio_files scene = true) scenes.
Proof.
  induction scenes as [|scene scenes IH]; intros i Hffmpeg; [done|].
  simpl. rewrite filter_cons.
  destruct (provisioned env images audio_files scene) eqn:Hprov.
  - rewrite segment_attempt_tools_ok by done.
    rewrite decide_True by done. simpl. f_equal. by apply IH.
  - rewrite decide_False by done.
    destruct (segment_attempt env dimensions images audio_files i scene)
      as [[]|] eqn:Hattempt; [|by apply IH..].
    apply segment_attempt_provisioned in Hattempt. congruence.
Qed.

Lemma stitch_video_no_segments env script_data scenes images audio_files
    resolution tiktok output_path :
  Script.scenes script_data = Some scenes →
  segments_from env (resolution_map_get resolution) images audio_files 0 scenes = [] →
  stitch_video env script_data images audio_files resolution tiktok output_path
  = false.
Proof.
  intros Hscenes Hsegs. unfold stitch_video, stitch_video_body, segment_paths.
  destruct (makedirs env "/tmp/video_segments") as [[]|]; cbn; [|done].
  rewrite Hscenes. cbn. by rewrite Hsegs.
Qed.

Lemma run_stages_reaches_composition env job_id request_data script_data scenes
    images audio_files :
  stages_produce env request_data script_data scenes images audio_files →
  ∃ resolution tiktok,
    outcome (run_stages env job_id request_data)
    = Ok (output_file job_id,
          stitch_video env script_data images audio_files resolution tiktok
            (output_file job_id)).
Proof.
  intros (story & duration & resolution & tiktok & -> & Hscript & Hscenes
          & Himages & Haudio & Hmk).
  exists resolution, tiktok. unfold run_stages. cbn.
  rewrite Hscript. cbn. rewrite Hscenes. cbn. rewrite Himages. cbn.
  rewrite Haudio. cbn. rewrite Hmk. done.
Qed.

Lemma composition_failure_record env clock job_id request_data db job_info
    output_path :
  outcome (run_stages env job_id request_data) = Ok (output_path, false) →
  db !! job_key job_id = Some job_info →
  ∃ final,
    worker_run env clock job_id request_data db !! job_key job_id = Some final
    ∧ Job.status final = failed
    ∧ Job.progress final = 0
    ∧ Job.error final = Some "Video stitching failed".
Proof.
  intros Hout Hdb. unfold worker_run.
  rewrite (run_effects_present _ job_id _ _ _ job_info)
    by (done || apply generate_video_task_targets).
  destruct (generate_video_task_shape env job_id request_data)
    as [(k & msg & Hk & [Hraise|(_ & -> & _)] & ->)|(Hok & _)];
    [congruence| |congruence].
  eexists. split; [done|]. by rewrite run_record_snoc.
Qed.

(** ** Order of the composed sub-clips *)




Lemma segments_from_indices env dimensions images audio_files scenes : ∀ i0,
  let segments := segments_from env dimensions images audio_files i0 scenes in
  Forall (λ s, (i0 ≤ s.1)%nat ∧ scenes !! (s.1 - i0)%nat = Some s.2) segments
  ∧ StronglySorted lt (segments.*1).
Proof.
  induction scenes as [|scene scenes IH]; intros i0; simpl.
  { split; constructor. }
  destruct (IH (S i0)) as [Hall Hsorted].
  assert (Forall (λ s, (i0 ≤ s.1)%nat
                       ∧ (scene :: scenes) !! (s.1 - i0)%nat = Some s.2)
            (segments_from env dimensions images audio_files (S i0) scenes))
    as Hall'.
  { eapply Forall_impl; [exact Hall|]. intros [i sc] [Hle Hlookup]. simpl in *.
    split; [lia|]. by replace (i - i0)%nat with (S (i - S i0)) by lia. }
  destruct (segment_attempt env dimensions images audio_files i0 scene)
    as [[]|]; [|done..].
  split.
  - constructor; [|done]. simpl. split; [lia|]. by rewrite Nat.sub_diag.
  - simpl. constructor; [done|].
    apply Forall_fmap. eapply Forall_impl; [exact Hall|].
    intros [i sc] [Hle _]. simpl in *. lia.
Qed.

(** ** Per-scene failures in the generation stages *)

Lemma image_placeholder_well_formed scene :
  well_formed scene →
  ∃ image, image_placeholder scene = Ok image
    ∧ Scene.scene_number scene = Some (Image.scene_number image)
    ∧ Image.image_path image = None.
Proof.
  intros [[n Hn] [d Hd]]. unfold image_placeholder. rewrite Hn, Hd. cbn.
  by eexists.
Qed.

Lemma image_attempt_record env dimensions i scene image :
  image_attempt env dimensions i scene = Ok image →
  Scene.scene_number scene = Some (Image.scene_number image)
  ∧ Image.image_path image = Some (image_file i).
Proof.
  unfold image_attempt.
  destruct (Scene.image_description scene) as [description|]; cbn; [|done].
  destruct (replicate_download env i description dimensions) as [status_code|];
    cbn; [|done].
  destruct (status_code =? 200); [|done].
  destruct (makedirs env "/tmp/images") as [[]|]; cbn; [|done].
  destruct (write_file env (image_file i)) as [[]|]; cbn; [|done].
  destruct (Scene.scene_number scene) as [n|]; cbn; [|done].
  destruct (Scene.duration scene) as [d|]; cbn; [|done].
  by intros [= <-].
Qed.

Lemma generate_images_from_total env dimensions scenes : ∀ i0,
  Forall well_formed scenes →
  ∃ images,
    generate_images_from env dimensions i0 scenes = Ok images
    ∧ length images = length scenes
    ∧ ∀ i scene, scenes !! i = Some scene →
        ∃ image, images !! i = Some image
          ∧ Scene.scene_number scene = Some (Image.scene_number image)
          ∧ Image.image_path image
            = match image_attempt env dimensions (i0 + i) scene with
              | Ok _ => Some (image_file (i0 + i))
              | Raise _ => None
              end.
Proof.
  induction scenes as [|scene scenes IH]; intros i0 Hwf.
  { exists []. by repeat split. }
  inversion_clear Hwf as [|? ? Hscene Hscenes].
  destruct (IH (S i0) Hscenes) as (images & Himages & Hlen & Hrecords).
  assert (∃ image,
            match image_attempt env dimensions i0 scene with
            | Ok image => Ok image
            | Raise _ => image_placeholder scene
            end = Ok image
            ∧ Scene.scene_number scene = Some (Image.scene_number image)
            ∧ Image.image_path image
              = match image_attempt env dimensions i0 scene with
                | Ok _ => Some (image_file i0)
                | Raise _ => None
                end) as (image & Himage & Hnumber & Hpath).
  { destruct (image_attempt env dimensions i0 scene) as [image|msg] eqn:Hattempt.
    - exists image. split; [done|]. by apply image_attempt_record in Hattempt.
    - by apply image_placeholder_well_formed. }
  exists (image :: images). simpl. rewrite Himage. cbn. rewrite Himages. cbn.
  split; [done|]. split; [by rewrite Hlen|].
  intros [|i] sc Hsc; simpl in Hsc.
  - injection Hsc as <-. exists image. by rewrite Nat.add_0_r.
  - destruct (Hrecords i sc Hsc) as (img & Himg & Hn & Hp).
    exists img. by rewrite Nat.add_succ_r.
Qed.

Lemma audio_placeholder_well_formed scene :
  well_formed scene →
  ∃ audio, audio_placeholder scene = Ok audio
    ∧ Scene.scene_number scene = Some (Audio.scene_number audio)
    ∧ Audio.audio_path audio = None.
Proof.
  intros [[n Hn] [d Hd]]. unfold audio_placeholder. rewrite Hn, Hd. cbn.
  by eexists.
Qed.

Lemma audio_attempt_record env i scene audio :
  audio_attempt env i scene = Ok audio →
  Scene.scene_number scene = Some (Audio.scene_number audio)
  ∧ Audio.audio_path audio = Some (audio_file i).
Proof.
  unfold audio_attempt.
  destruct (Scene.narration scene) as [narration|]; cbn; [|done].
  destruct (elevenlabs_generate env i narration) as [bytes|]; cbn; [|done].
  destruct (makedirs env "/tmp/audio") as [[]|]; cbn; [|done].
  destruct (write_file env (audio_file i)) as [[]|]; cbn; [|done].
  destruct (Scene.scene_number scene) as [n|]; cbn; [|done].
  by intros [= <-].
Qed.

Lemma generate_voiceover_from_total env scenes : ∀ i0,
  Forall well_formed scenes →
  ∃ audio_files,
    generate_voiceover_from env i0 scenes = Ok audio_files
    ∧ length audio_files = length scenes
    ∧ ∀ i scene, scenes !! i = Some scene →
        ∃ audio, audio_files !! i = Some audio
          ∧ Scene.scene_number scene = Some (Audio.scene_number audio)
          ∧ Audio.audio_path audio
            = match audio_attempt env (i0 + i) scene with
              | Ok _ => Some (audio_file (i0 + i))
              | Raise _ => None
              end.
Proof.
  induction scenes as [|scene scenes IH]; intros i0 Hwf.
  { exists []. by repeat split. }
  inversion_clear Hwf as [|? ? Hscene Hscenes].
  destruct (IH (S i0) Hscenes) as (audio_files & Hfiles & Hlen & Hrecords).
  assert (∃ audio,
            match audio_attempt env i0 scene with
            | Ok audio => Ok audio
            | Raise _ => audio_placeholder scene
            end = Ok audio
            ∧ Scene.scene_number scene = Some (Audio.scene_number audio)
            ∧ Audio.audio_path audio
              = match audio_attempt env i0 scene with
                | Ok _ => Some (audio_file i0)
                | Raise _ => None
                end) as (audio & Haudio & Hnumber & Hpath).
  { destruct (audio_attempt env i0 scene) as [audio|msg] eqn:Hattempt.
    - exists audio. split; [done|]. by apply audio_attempt_record in Hattempt.
    - by apply audio_placeholder_well_formed. }
  exists (audio :: audio_files). simpl. rewrite Haudio. cbn. rewrite Hfiles. cbn.
  split; [done|]. split; [by rewrite Hlen|].
  intros [|i] sc Hsc; simpl in Hsc.
  - injection Hsc as <-. exists audio. by rewrite Nat.add_0_r.
  - destruct (Hrecords i sc Hsc) as (au & Hau & Hn & Hp).
    exists au. by rewrite Nat.add_succ_r.
Qed.

(** C5, as stated, fails.  The [except] clause of a scene reads
    [scene['scene_number']] and [scene['duration']] again, so on a scene
    without a [duration] key a failure of the image service, or of the
    speech service, makes the whole stage raise a [KeyError]. *)
Lemma collaborator_failure_aborts_stage :
  (∃ msg, image_attempt one_image_missing_env (resolution_map_get "HD") 1
            scene_without_duration = Raise msg)
  ∧ generate_images one_image_missing_env
      [sample_scene 1; scene_without_duration] "HD" = Raise "'duration'"
  ∧ (∃ msg, audio_attempt speech_failing_env 0 scene_without_duration = Raise msg)
  ∧ generate_voiceover speech_failing_env
      {| Script.title := Some "Noah's Ark";
         Script.scenes := Some [scene_without_duration] |} = Raise "'duration'".
Proof. repeat split; by eauto. Qed.

(** C5, amended: for every input scene list whose scenes each carry the
    [scene_number] and [duration] keys, the image stage and the voice
    stage never raise: they return exactly one record per scene, in
    order and under the scene's number; the record of a scene whose
    attempt raised has a null file reference, and the record of a scene
    whose attempt succeeded refers to that scene's file. *)
Theorem per_scene_failures_do_not_abort env script_data scenes resolution :
  Script.scenes script_data = Some scenes →
  Forall well_formed scenes →
  (∃ images,
      generate_images env scenes resolution = Ok images
      ∧ length images = length scenes
      ∧ ∀ i scene, scenes !! i = Some scene →
          ∃ image, images !! i = Some image
            ∧ Scene.scene_number scene = Some (Image.scene_number image)
            ∧ Image.image_path image
              = match image_attempt env (resolution_map_get resolution) i scene with
                | Ok _ => Some (image_file i)
                | Raise _ => None
                end)
  ∧ (∃ audio_files,
        generate_voiceover env script_data = Ok audio_files
        ∧ length audio_files = length scenes
        ∧ ∀ i scene, scenes !! i = Some scene →
            ∃ audio, audio_files !! i = Some audio
              ∧ Scene.scene_number scene = Some (Audio.scene_number audio)
              ∧ Audio.audio_path audio
                = match audio_attempt env i scene with
                  | Ok _ => Some (audio_file i)
                  | Raise _ => None
                  end).
Proof.
  intros Hscenes Hwf. split.
  - apply (generate_images_from_total env _ scenes 0 Hwf).
  - unfold generate_voiceover. rewrite Hscenes. cbn.
    apply (generate_voiceover_from_total env scenes 0 Hwf).
Qed.

Lemma per_scene_failures_do_not_abort_witness :
  (∃ msg, image_attempt one_image_missing_env (resolution_map_get "HD") 1
            (sample_scene 2) = Raise msg)
  ∧ ∃ images,
      generate_images one_image_missing_env [sample_scene 1; sample_scene 2] "HD"
      = Ok images
      ∧ length images = 2%nat
      ∧ Image.image_path <$> images = [Some (image_file 0); None].
Proof.
  split; [by eexists|].
  destruct (per_scene_failures_do_not_abort one_image_missing_env sample_script
              [sample_scene 1; sample_scene 2] "HD")
    as [(images & Himages & Hlen & _) _].
  - reflexivity.
  - repeat constructor; by eexists.
  - exists images. split; [exact Himages|]. split; [exact Hlen|].
    vm_compute in Himages. by injection Himages as <-.
Defined.

(** ** The HTTP contract *)


Lemma within_bounds_numeric duration : within_bounds duration → numeric duration.
Proof. by destruct duration. Qed.



(** C9: [GET /download/<job_id>] streams the file, named after the
    story, exactly when the record exists, its status is completed and
    the file is on disk; it answers 400 when the record exists with
    another status, and 404 when the record is missing or when the job
    is completed and the file is missing. *)
Theorem download_video_contract exists_ job_id st :
  let resp := download_video exists_ job_id st in
  let video_path := "/tmp/videos/" +:+ job_id +:+ ".mp4" in
  ((∃ path name, payload resp = FileBody path name)
   ↔ ∃ job_info, redis st !! job_key job_id = Some job_info
       ∧ Job.status job_info = completed ∧ exists_ video_path = true)
  ∧ (∀ job_info, redis st !! job_key job_id = Some job_info →
       Job.status job_info = completed → exists_ video_path = true →
       resp = Response 200 (FileBody video_path (Job.story job_info +:+ ".mp4")))
  ∧ (∀ job_info, redis st !! job_key job_id = Some job_info →
       Job.status job_info ≠ completed → code resp = 400)
  ∧ (redis st !! job_key job_id = None → code resp = 404)
  ∧ (∀ job_info, redis st !! job_key job_id = Some job_info →
       Job.status job_info = completed → exists_ video_path = false →
       code resp = 404).
Proof.
  intros resp video_path. subst resp video_path. unfold download_video.
  destruct (redis st !! job_key job_id) as [job_info|] eqn:Hdb.
  - case_bool_decide as Hstatus; simpl.
    + destruct (exists_ _) eqn:Hfile; simpl.
      * repeat split; try done; try by eauto.
        -- by intros ? [= <-].
        -- by intros ? [= <-].
      * repeat split; try done.
        -- by intros (? & ? & ?).
        -- by intros (? & [= <-] & _ & ?).
        -- by intros ? [= <-].
    + repeat split; try done.
      * by intros (? & ? & ?).
      * by intros (? & [= <-] & ? & _).
      * by intros ? [= <-].
      * by intros ? [= <-].
  - repeat split; try done.
    + by intros (? & ? & ?).
    + by intros (? & ? & _).
Qed.

Lemma download_video_contract_witness :
  download_video (λ _, true) "job-1"
    {| redis := worker_run sample_env sample_clock "job-1" sample_request
                  (redis sample_backend);
       celery_queue := [] |}
  = Response 200 (FileBody "/tmp/videos/job-1.mp4" "Noah's Ark.mp4").
Proof.
  destruct (download_video_contract (λ _, true) "job-1"
              {| redis := worker_run sample_env sample_clock "job-1"
                            sample_request (redis sample_backend);
                 celery_queue := [] |}) as (_ & Hfile & _).
  exact (Hfile _ ltac:(vm_compute; reflexivity) ltac:(reflexivity)
           ltac:(reflexivity)).
Defined.

(** ** The script fallback *)

(** C10: when the completion is not JSON, [generate_script] returns the
    one-scene fallback script: scene number 1, duration the requested
    minutes times 60, narration the raw completion; and the run goes on
    to the checkpoint that follows the script stage. *)
Theorem generate_script_fallback env job_id story duration resolution tiktok text :
  openai_chat env story duration tiktok = Ok text →
  json_loads env text = None →
  (∃ scene,
      generate_script env story duration tiktok
      = Ok {| Script.title := Some story; Script.scenes := Some [scene] |}
      ∧ Scene.scene_number scene = Some 1
      ∧ Scene.duration scene = Some (duration * 60)
      ∧ Scene.narration scene = Some text)
  ∧ UpdateJobProgress job_id processing 20 None
    ∈ effects (generate_video_task env job_id
                 (Request.Build (Some story) (Some duration) (Some resolution)
                    (Some tiktok))).
Proof.
  intros Hchat Hjson.
  assert (generate_script env story duration tiktok
          = Ok (fallback_script story duration text)) as Hscript.
  { unfold generate_script. rewrite Hchat. cbn. by rewrite Hjson. }
  split.
  - rewrite Hscript. by eexists.
  - rewrite generate_video_task_effects. apply elem_of_app. left.
    unfold run_stages. cbn. rewrite Hscript. cbn.
    apply elem_of_cons. right. apply elem_of_cons. by left.
Qed.

Lemma generate_script_fallback_witness :
  ∃ scene,
    generate_script prose_env "Noah's Ark" 15 false
    = Ok {| Script.title := Some "Noah's Ark"; Script.scenes := Some [scene] |}
    ∧ Scene.scene_number scene = Some 1
    ∧ Scene.duration scene = Some 900
    ∧ Scene.narration scene = Some "Here is your script: ...".
Proof.
  apply (generate_script_fallback prose_env "job-1" "Noah's Ark" 15 "Full HD"
           false "Here is your script: ..."); reflexivity.
Defined.

(** * Further properties of the worker *)

(** ** What a run leaves alone *)

Lemma job_key_inj job_id other : job_key job_id = job_key other → job_id = other.
Proof. unfold job_key. apply (inj (String.app "job:")). Qed.

Lemma run_effect_frame now job_id e db :
  targets job_id e →
  dom (run_effect now e db) = dom db
  ∧ ∀ k, k ≠ job_key job_id → run_effect now e db !! k = db !! k.
Proof.
  destruct e as [id st pr err|]; simpl; [|done]. intros ->.
  unfold update_job_progress.
  destruct (db !! job_key job_id) as [job_info|] eqn:Hdb; [|done]. split.
  - by apply dom_insert_lookup_L.
  - intros k Hk. by apply lookup_insert_ne.
Qed.

Lemma run_effects_frame clock job_id es : ∀ n db,
  Forall (targets job_id) es →
  dom (run_effects clock n es db) = dom db
  ∧ ∀ k, k ≠ job_key job_id → run_effects clock n es db !! k = db !! k.
Proof.
  induction es as [|e es IH]; intros n db Hes; [done|].
  inversion_clear Hes as [|? ? He Hes']. simpl.
  destruct (run_effect_frame (clock n) job_id e db He) as [Hdom Hother].
  destruct (IH (S n) (run_effect (clock n) e db) Hes') as [Hdom' Hother'].
  split; [congruence|]. intros k Hk. rewrite Hother' by done. by apply Hother.
Qed.

(** X1: a run of the task touches the record of its own job only: it
    neither creates nor deletes a key of the store, and the record of
    every other job is as it was. *)
Theorem worker_run_frame env clock job_id request_data db :
  dom (worker_run env clock job_id request_data db) = dom db
  ∧ (∀ k, k ≠ job_key job_id →
       worker_run env clock job_id request_data db !! k = db !! k)
  ∧ (∀ other, other ≠ job_id →
       worker_run env clock job_id request_data db !! job_key other
       = db !! job_key other).
Proof.
  unfold worker_run.
  destruct (run_effects_frame clock job_id
              (effects (generate_video_task env job_id request_data)) 0 db
              (generate_video_task_targets env job_id request_data))
    as [Hdom Hother].
  split; [done|]. split; [done|].
  intros other Hne. apply Hother. intros Heq. by apply job_key_inj in Heq.
Qed.

Lemma run_record_parameters clock es : ∀ n job_info,
  let final := run_record clock n es job_info in
  Job.job_id final = Job.job_id job_info
  ∧ Job.story final = Job.story job_info
  ∧ Job.duration final = Job.duration job_info
  ∧ Job.resolution final = Job.resolution job_info
  ∧ Job.tiktok final = Job.tiktok job_info
  ∧ Job.created_at final = Job.created_at job_info.
Proof.
  induction es as [|e es IH]; intros n job_info; [done|].
  simpl. destruct (IH (S n) (record_step (clock n) e job_info))
    as (-> & -> & -> & -> & -> & ->).
  by destruct e.
Qed.

(** The last call of a run is an update that sets a terminal status. *)
Lemma generate_video_task_last env job_id request_data :
  ∃ es st pr err,
    effects (generate_video_task env job_id request_data)
    = es ++ [UpdateJobProgress job_id st pr err]
    ∧ (st = completed ∨ st = failed).
Proof.
  destruct (generate_video_task_shape env job_id request_data)
    as [(k & msg & _ & _ & ->)|(_ & ups & _ & ->)].
  - eexists _, failed, 0, (Some msg). split; [done|by right].
  - exists (checkpoints job_id
            ++ UpdateJobProgress job_id processing 90 None :: ups),
      completed, 100, None.
    split; [|by left]. by rewrite <-app_assoc.
Qed.

(** X2: the parameters of the submission and its creation time are
    never changed by a run, and a run always refreshes [updated_at]. *)
Theorem worker_run_keeps_parameters env clock job_id request_data db job_info :
  db !! job_key job_id = Some job_info →
  ∃ final,
    worker_run env clock job_id request_data db !! job_key job_id = Some final
    ∧ Job.job_id final = Job.job_id job_info
    ∧ Job.story final = Job.story job_info
    ∧ Job.duration final = Job.duration job_info
    ∧ Job.resolution final = Job.resolution job_info
    ∧ Job.tiktok final = Job.tiktok job_info
    ∧ Job.created_at final = Job.created_at job_info
    ∧ is_Some (Job.updated_at final).
Proof.
  intros Hdb. unfold worker_run.
  rewrite (run_effects_present _ job_id _ _ _ job_info)
    by (done || apply generate_video_task_targets).
  eexists. split; [done|].
  destruct (run_record_parameters clock
              (effects (generate_video_task env job_id request_data)) 0 job_info)
    as (? & ? & ? & ? & ? & ?).
  repeat split; try done.
  destruct (generate_video_task_last env job_id request_data)
    as (es & st & pr & err & -> & _).
  rewrite run_record_snoc. simpl. by eexists.
Qed.

Lemma worker_run_keeps_parameters_witness :
  ∃ final,
    worker_run ffmpeg_failing_env sample_clock "job-1" sample_request
      (redis sample_backend) !! job_key "job-1" = Some final
    ∧ Job.story final = "Noah's Ark"
    ∧ Job.created_at final = "2024-01-01T00:00:00".
Proof.
  destruct (worker_run_keeps_parameters ffmpeg_failing_env sample_clock "job-1"
              sample_request (redis sample_backend) _
              ltac:(vm_compute; reflexivity))
    as (final & Hfinal & _ & Hstory & _ & _ & _ & Hcreated & _).
  exists final. split; [exact Hfinal|]. split; [exact Hstory|exact Hcreated].
Defined.

(** X3: a run never leaves the job in [queued] or [processing]: when
    the record exists, the run ends with status completed or failed. *)
Theorem worker_run_terminal env clock job_id request_data db job_info :
  db !! job_key job_id = Some job_info →
  ∃ final,
    worker_run env clock job_id request_data db !! job_key job_id = Some final
    ∧ (Job.status final = completed ∨ Job.status final = failed).
Proof.
  intros Hdb. unfold worker_run.
  rewrite (run_effects_present _ job_id _ _ _ job_info)
    by (done || apply generate_video_task_targets).
  eexists. split; [done|].
  destruct (generate_video_task_last env job_id request_data)
    as (es & st & pr & err & -> & Hst).
  by rewrite run_record_snoc.
Qed.

Lemma worker_run_terminal_witness :
  ∃ final,
    worker_run sample_env sample_clock "job-1" sample_request
      (redis sample_backend) !! job_key "job-1" = Some final
    ∧ (Job.status final = completed ∨ Job.status final = failed).
Proof.
  apply (worker_run_terminal sample_env sample_clock "job-1" sample_request
           (redis sample_backend) _ ltac:(vm_compute; reflexivity)).
Defined.

(** ** How a run fails *)

(** X4: when [request_data] lacks one of the four keys the task reads,
    the run writes no checkpoint at all: its only call records the
    failure, with the [KeyError] of the first missing key as error. *)
Theorem missing_request_key_fails_job env job_id request_data key :
  first_missing_field request_data = Some key →
  effects (generate_video_task env job_id request_data)
  = [UpdateJobProgress job_id failed 0 (Some (key_error key))].
Proof.
  intros Hkey. rewrite generate_video_task_effects. unfold run_stages.
  destruct request_data as [[story|] [duration|] [resolution|] [tiktok|]];
    cbn in Hkey |- *; by simplify_eq.
Qed.

Lemma missing_request_key_fails_job_witness :
  effects (generate_video_task sample_env "job-1"
             {| Request.story := Some "Noah's Ark";
                Request.duration := None;
                Request.resolution := Some "HD";
                Request.tiktok := Some true |})
  = [UpdateJobProgress "job-1" failed 0 (Some "'duration'")].
Proof.
  apply (missing_request_key_fails_job sample_env "job-1" _ "duration").
  reflexivity.
Defined.

(** X5: an exception of the script generation is fatal for the job:
    after the first checkpoint the run records the failure with the
    text of the exception, and no later stage is run. *)
Theorem script_failure_fails_job env job_id story duration resolution tiktok msg :
  openai_chat env story duration tiktok = Raise msg →
  generate_script env story duration tiktok = Raise msg
  ∧ effects (generate_video_task env job_id
               (Request.Build (Some story) (Some duration) (Some resolution)
                  (Some tiktok)))
    = [UpdateJobProgress job_id processing 10 None;
       UpdateJobProgress job_id failed 0 (Some msg)].
Proof.
  intros Hchat.
  assert (generate_script env story duration tiktok = Raise msg) as Hscript.
  { unfold generate_script. by rewrite Hchat. }
  split; [done|].
  rewrite generate_video_task_effects. unfold run_stages. cbn.
  rewrite Hscript. done.
Qed.

Lemma script_failure_fails_job_witness :
  effects (generate_video_task (openai_failing_env "Rate limit reached") "job-1"
             sample_request)
  = [UpdateJobProgress "job-1" processing 10 None;
     UpdateJobProgress "job-1" failed 0 (Some "Rate limit reached")].
Proof.
  apply (script_failure_fails_job (openai_failing_env "Rate limit reached")
           "job-1" "Noah's Ark" 15 "Full HD" false "Rate limit reached").
  reflexivity.
Defined.

(** X6: an exception whose text is empty fails the job without
    touching the error field: [if error:] skips the assignment, so a
    job created by [POST /generate] ends failed with a null error. *)
Theorem empty_exception_text_leaves_error env clock job_id request_data db job_info :
  outcome (run_stages env job_id request_data) = Raise "" →
  db !! job_key job_id = Some job_info →
  ∃ final,
    worker_run env clock job_id request_data db !! job_key job_id = Some final
    ∧ Job.status final = failed
    ∧ Job.error final = Job.error job_info.
Proof.
  intros Hraise Hdb. unfold worker_run.
  rewrite (run_effects_present _ job_id _ _ _ job_info)
    by (done || apply generate_video_task_targets).
  eexists. split; [done|].
  rewrite generate_video_task_effects, Hraise, run_record_snoc. simpl.
  split; [done|].
  pose proof (run_stages_effects env job_id request_data) as Hstages.
  rewrite Hraise in Hstages. destruct Hstages as (k & Hk & ->).
  by destruct k as [|[|[|[|[|k]]]]]; [..|lia].
Qed.

Lemma empty_exception_text_leaves_error_witness :
  ∃ final,
    worker_run (openai_failing_env "") sample_clock "job-1" sample_request
      (redis sample_backend) !! job_key "job-1" = Some final
    ∧ Job.status final = failed
    ∧ Job.error final = None.
Proof.
  destruct (empty_exception_text_leaves_error (openai_failing_env "") sample_clock
              "job-1" sample_request (redis sample_backend) _
              ltac:(reflexivity) ltac:(vm_compute; reflexivity))
    as (final & Hfinal & Hstatus & Herror).
  exists final. split; [exact Hfinal|]. split; [exact Hstatus|exact Herror].
Defined.

(** X7: the video of a job that failed is never uploaded: an upload is
    among the calls of a run only if composition returned success. *)
Theorem upload_only_after_composition env job_id request_data file bucket key :
  S3Upload file bucket key ∈ effects (generate_video_task env job_id request_data) →
  outcome (run_stages env job_id request_data) = Ok (output_file job_id, true).
Proof.
  intros Hin.
  destruct (generate_video_task_shape env job_id request_data)
    as [(k & msg & Hk & _ & Hes)|(Hok & _)]; [|done].
  exfalso. rewrite Hes in Hin.
  apply elem_of_app in Hin as [Hin|Hin].
  - apply elem_of_take in Hin as (i & Hin & _).
    destruct i as [|[|[|[|i]]]]; simpl in Hin; by simplify_eq.
  - apply list_elem_of_singleton in Hin. done.
Qed.

Lemma upload_only_after_composition_witness :
  outcome (run_stages s3_failing_env "job-1" sample_request)
  = Ok (output_file "job-1", true).
Proof.
  apply (upload_only_after_composition s3_failing_env "job-1" sample_request
           (output_file "job-1") "bible-videos" "videos/job-1.mp4").
  vm_compute. do 5 right. left.
Defined.

(** ** What a completed job guarantees *)

Lemma stitch_video_true env script_data images audio_files resolution tiktok
    output_path :
  stitch_video env script_data images audio_files resolution tiktok output_path
  = true →
  ∃ scenes,
    Script.scenes script_data = Some scenes
    ∧ segment_paths env (resolution_map_get resolution) images audio_files scenes
      ≠ []
    ∧ subprocess_run env (concat_cmd output_path) = Ok 0.
Proof.
  unfold stitch_video, stitch_video_body.
  destruct (makedirs env "/tmp/video_segments") as [[]|]; cbn; [|done].
  destruct (Script.scenes script_data) as [scenes|]; cbn; [|done].
  destruct (segment_paths env _ images audio_files scenes) as [|path paths] eqn:Hpaths;
    [done|].
  destruct (write_file env "/tmp/concat_list.txt") as [[]|]; cbn; [|done].
  destruct (subprocess_run env (concat_cmd output_path)) as [returncode|];
    cbn; [|done].
  intros Hcode%Z.eqb_eq. subst returncode.
  exists scenes. by rewrite Hpaths.
Qed.

Lemma run_stages_Ok env job_id request_data output_path success :
  outcome (run_stages env job_id request_data) = Ok (output_path, success) →
  ∃ script_data scenes images audio_files resolution tiktok,
    stages_produce env request_data script_data scenes images audio_files
    ∧ Request.resolution request_data = Some resolution
    ∧ Request.tiktok request_data = Some tiktok
    ∧ success = stitch_video env script_data images audio_files resolution tiktok
                  (output_file job_id).
Proof.
  unfold run_stages.
  destruct request_data as [[story|] [duration|] [resolution|] [tiktok|]];
    cbn; try done.
  destruct (generate_script env story duration tiktok) as [script_data|] eqn:Hscript;
    cbn; [|done].
  destruct (Script.scenes script_data) as [scenes|] eqn:Hscenes; cbn; [|done].
  destruct (generate_images env scenes resolution) as [images|] eqn:Himages;
    cbn; [|done].
  destruct (generate_voiceover env script_data) as [audio_files|] eqn:Haudio;
    cbn; [|done].
  destruct (makedirs env "/tmp/videos") as [[]|] eqn:Hmk; cbn; [|done].
  intros [= _ <-].
  exists script_data, scenes, images, audio_files, resolution, tiktok.
  split; [|done]. exists story, duration, resolution, tiktok. by repeat split.
Qed.

(** X8: no job is shown as completed without a video: a run ends with
    status completed only if every stage returned, at least one segment
    was encoded and ffmpeg's concatenation into the job's output file
    exited with 0; its progress is then 100. *)
Theorem completed_only_after_composition env clock job_id request_data db final :
  worker_run env clock job_id request_data db !! job_key job_id = Some final →
  Job.status final = completed →
  Job.progress final = 100
  ∧ ∃ script_data scenes images audio_files resolution,
      stages_produce env request_data script_data scenes images audio_files
      ∧ Request.resolution request_data = Some resolution
      ∧ segment_paths env (resolution_map_get resolution) images audio_files scenes
        ≠ []
      ∧ subprocess_run env (concat_cmd (output_file job_id)) = Ok 0.
Proof.
  unfold worker_run. intros Hrun Hcompleted.
  pose proof (generate_video_task_targets env job_id request_data) as Htargets.
  destruct (db !! job_key job_id) as [j0|] eqn:Hdb; last first.
  { rewrite (run_effects_absent _ job_id) in Hrun by done. congruence. }
  rewrite (run_effects_present _ job_id _ _ _ j0) in Hrun by done.
  injection Hrun as <-.
  destruct (generate_video_task_shape env job_id request_data)
    as [(k & msg & _ & _ & Hes)|(Hok & ups & _ & Hes)];
    rewrite Hes in Hcompleted |- *; clear Hes.
  { rewrite run_record_snoc in Hcompleted. done. }
  split.
  { by rewrite app_comm_cons, app_assoc, run_record_snoc. }
  destruct (run_stages_Ok env job_id request_data _ _ Hok)
    as (script_data & scenes & images & audio_files & resolution & tiktok
        & Hstages & Hres & _ & Hstitch).
  symmetry in Hstitch.
  apply stitch_video_true in Hstitch as (scenes' & Hscenes' & Hpaths & Hconcat).
  destruct Hstages as (s & d & r & t & Hreq & Hscript & Hscenes & Hrest).
  assert (scenes' = scenes) as -> by congruence.
  exists script_data, scenes, images, audio_files, resolution.
  split; [by exists s, d, r, t|]. done.
Qed.

Lemma completed_only_after_composition_witness :
  subprocess_run sample_env (concat_cmd (output_file "job-1")) = Ok 0.
Proof.
  destruct (completed_only_after_composition sample_env sample_clock "job-1"
              sample_request (redis sample_backend) _
              ltac:(vm_compute; reflexivity) ltac:(reflexivity))
    as (_ & _ & _ & _ & _ & _ & _ & _ & _ & Hconcat).
  exact Hconcat.
Defined.

(** * Further properties of the HTTP surface *)

(** X9: the answer of [POST /generate] to a bad JSON object.  A missing
    field is reported first, by name, in the order story, duration,
    resolution, tiktok.  On an object with all four fields the story is
    checked before the duration and the duration before the resolution:
    "Invalid story selection" is answered exactly when the story is not
    a known one; 500 "Internal server error" exactly when the story is
    known and the duration is not a number; the duration message exactly
    when the story is known and the duration is a number outside
    [10,25]; "Invalid resolution" exactly when story and duration are
    valid and the resolution is not. *)
Theorem generate_video_error_messages uuid now entries st :
  let resp := (generate_video uuid now (Posted.Object entries) st).1 in
  (∀ key, first_missing_entry entries = Some key →
     resp = Response 400 (ErrorBody ("Missing required field: " +:+ key)))
  ∧ (∀ story duration resolution tiktok,
       entries = Posted.Fields (Some story) (Some duration) (Some resolution)
                   (Some tiktok) →
       (resp = Response 400 (ErrorBody "Invalid story selection")
        ↔ ¬ known_story story)
       ∧ (resp = Response 500 (ErrorBody "Internal server error")
          ↔ known_story story ∧ ¬ numeric duration)
       ∧ (resp = Response 400 (ErrorBody "Duration must be between 10 and 25 minutes")
          ↔ known_story story ∧ numeric duration ∧ ¬ within_bounds duration)
       ∧ (resp = Response 400 (ErrorBody "Invalid resolution")
          ↔ known_story story ∧ within_bounds duration
            ∧ ¬ valid_resolution resolution)).
Proof.
  intros resp. subst resp. split.
  - intros key Hkey. by rewrite (generate_video_missing uuid now entries st key).
  - intros story duration resolution tiktok ->. rewrite generate_video_object.
    destruct (among BIBLE_STORIES story) as [story_name|] eqn:Hstory.
    2:{ apply among_None in Hstory. cbn [fst].
        repeat split; try done; by intros [? _]. }
    apply among_Some in Hstory as [-> Hstory].
    assert (known_story (Json.Str story_name)) as Hknown by by eexists.
    destruct (duration_in_range duration) as [[]|msg] eqn:Hduration.
    3:{ assert (¬ numeric duration) as Hnumeric.
        { apply duration_in_range_raises. by eexists. }
        cbn [fst]. repeat split; try done.
        - by intros (_ & ? & _).
        - by intros (_ & ?%within_bounds_numeric & _). }
    2:{ apply duration_in_range_false in Hduration as [Hnumeric Hout].
        cbn [fst]. repeat split; try done.
        - by intros [_ ?].
        - by intros (_ & ? & _). }
    apply duration_in_range_true in Hduration.
    pose proof (within_bounds_numeric duration Hduration) as Hnumeric.
    destruct (among valid_resolutions resolution) as [resolution_name|] eqn:Hres.
    + apply among_Some in Hres as [-> Hres].
      assert (valid_resolution (Json.Str resolution_name)) as Hvalid
        by by eexists.
      cbn [fst]. repeat split; try done.
      * by intros [_ ?].
      * by intros (_ & _ & ?).
      * by intros (_ & _ & ?).
    + apply among_None in Hres. cbn [fst]. repeat split; try done.
      * by intros [_ ?].
      * by intros (_ & _ & ?).
Qed.

(** X10: once the worker has run a submitted job, [GET /status] answers
    200 with the creation time of the submission and a terminal state:
    completed with progress 100 and no error, or failed with progress 0. *)
Theorem status_after_run env clock uuid now data st :
  celery_queue st = [] →
  code (generate_video uuid now (posted data) st).1 = 200 →
  ∃ final_status progress error,
    get_job_status uuid (worker_step env clock (generate_video uuid now (posted data) st).2)
    = Response 200 (StatusBody uuid final_status progress now error)
    ∧ ((final_status = completed ∧ progress = 100 ∧ error = None)
       ∨ (final_status = failed ∧ progress = 0)).
Proof.
  intros Hidle Hcode.
  rewrite worker_step_runs_submission by done.
  destruct (generate_video_accepted uuid now data st Hcode)
    as (story & duration & resolution & tiktok & -> & _ & _ & _ & ->).
  cbn [snd redis]. unfold get_job_status, worker_run. cbn [redis].
  set (data := Request.Build _ _ _ _).
  set (created := Job.Build _ _ _ _ _ _ _ _ _ _).
  rewrite (run_effects_present _ uuid _ _ _ created);
    [|apply generate_video_task_targets|apply lookup_insert_eq].
  destruct (run_record_parameters clock (effects (generate_video_task env uuid data))
              0 created) as (_ & _ & _ & _ & _ & Hcreated).
  rewrite Hcreated. cbn [Job.created_at created].
  eexists _, _, _. split; [done|].
  destruct (generate_video_task_shape env uuid data)
    as [(k & msg & _ & _ & ->)|(_ & ups & Hups & ->)].
  - right. by rewrite run_record_snoc.
  - left. subst ups. by destruct (truthy (s3_bucket_name env)).
Qed.

Lemma status_after_run_witness :
  ∃ final_status progress error,
    get_job_status "job-1" (worker_step sample_env sample_clock sample_backend)
    = Response 200
        (StatusBody "job-1" final_status progress "2024-01-01T00:00:00" error)
    ∧ ((final_status = completed ∧ progress = 100 ∧ error = None)
       ∨ (final_status = failed ∧ progress = 0)).
Proof.
  apply (status_after_run sample_env sample_clock "job-1" "2024-01-01T00:00:00"
           sample_request empty_backend);
    [reflexivity|vm_compute; reflexivity].
Defined.

(** X11: a download is refused with 400 while the job waits in the
    queue, even when a file of that name is on disk; and after the
    worker has run the job, a file is served only if the composition of
    that run succeeded, from the path the task writes to and under the
    name of the story. *)
Theorem download_follows_composition env clock exists_ uuid now data st :
  celery_queue st = [] →
  code (generate_video uuid now (posted data) st).1 = 200 →
  download_video exists_ uuid (generate_video uuid now (posted data) st).2
  = Response 400 (ErrorBody "Video not ready for download")
  ∧ ∀ path name,
      payload (download_video exists_ uuid
                 (worker_step env clock (generate_video uuid now (posted data) st).2))
      = FileBody path name →
      outcome (run_stages env uuid data) = Ok (output_file uuid, true)
      ∧ path = output_file uuid
      ∧ Some name = (λ story, story +:+ ".mp4") <$> Request.story data.
Proof.
  intros Hidle Hcode.
  rewrite worker_step_runs_submission by done.
  destruct (generate_video_accepted uuid now data st Hcode)
    as (story & duration & resolution & tiktok & -> & _ & _ & _ & ->).
  cbn [snd redis]. unfold download_video, worker_run. cbn [redis].
  set (data := Request.Build _ _ _ _).
  set (created := Job.Build _ _ _ _ _ _ _ _ _ _).
  rewrite lookup_insert_eq. split; [done|].
  rewrite (run_effects_present _ uuid _ _ _ created);
    [|apply generate_video_task_targets|apply lookup_insert_eq].
  destruct (run_record_parameters clock (effects (generate_video_task env uuid data))
              0 created) as (_ & Hstory & _).
  rewrite Hstory. cbn [Job.story created].
  intros path name.
  destruct (generate_video_task_shape env uuid data)
    as [(k & msg & _ & _ & ->)|(Hok & ups & Hups & ->)].
  - rewrite run_record_snoc. simpl. done.
  - case_bool_decide; simpl; [|done].
    destruct (exists_ _); simpl; [|done].
    by intros [= <- <-].
Qed.

Lemma download_follows_composition_witness :
  download_video (λ _, true) "job-1" sample_backend
  = Response 400 (ErrorBody "Video not ready for download").
Proof.
  apply (download_follows_composition sample_env sample_clock (λ _, true) "job-1"
           "2024-01-01T00:00:00" sample_request empty_backend);
    [reflexivity|vm_compute; reflexivity].
Defined.

(** * Further properties of the stages *)

(** ** Scratch files *)

Lemma list_ascii_of_string_app (s t : string) :
  String.list_ascii_of_string (s +:+ t)
  = String.list_ascii_of_string s ++ String.list_ascii_of_string t.
Proof. induction s as [|a s IH]; simpl; [done|]. by rewrite IH. Qed.

Lemma string_app_inv_tail (s1 s2 t : string) : s1 +:+ t = s2 +:+ t → s1 = s2.
Proof.
  intros Heq. apply (f_equal String.list_ascii_of_string) in Heq.
  rewrite !list_ascii_of_string_app in Heq. apply app_inv_tail in Heq.
  rewrite <-(String.string_of_list_ascii_of_string s1),
    <-(String.string_of_list_ascii_of_string s2).
  by rewrite Heq.
Qed.

Lemma numbered_file_inj (prefix suffix : string) (i j : nat) :
  prefix +:+ pretty (S i) +:+ suffix = prefix +:+ pretty (S j) +:+ suffix → i = j.
Proof.
  intros Heq. apply (inj (String.app prefix)) in Heq.
  apply string_app_inv_tail in Heq. apply (inj pretty) in Heq. lia.
Qed.

Lemma StronglySorted_lt_NoDup (l : list nat) : StronglySorted lt l → NoDup l.
Proof.
  induction 1 as [|x l _ IH Hall]; constructor; [|done].
  intros Hx. apply (proj1 (Forall_forall _ _) Hall) in Hx. lia.
Qed.

Lemma generate_images_from_paths env dimensions scenes : ∀ i0 images,
  generate_images_from env dimensions i0 scenes = Ok images →
  omap Image.image_path images
  `sublist_of` (image_file <$> seq i0 (length scenes)).
Proof.
  induction scenes as [|scene scenes IH]; intros i0 images; simpl.
  { by intros [= <-]. }
  destruct (match image_attempt env dimensions i0 scene with
            | Ok image => Ok image
            | Raise _ => image_placeholder scene
            end) as [image|] eqn:Himage; cbn; [|done].
  destruct (generate_images_from env dimensions (S i0) scenes) as [rest|] eqn:Hrest;
    cbn; [|done].
  intros [= <-]. specialize (IH (S i0) rest Hrest). simpl.
  destruct (image_attempt env dimensions i0 scene) as [image'|] eqn:Hattempt.
  - injection Himage as ->.
    apply image_attempt_record in Hattempt as [_ ->]. by apply sublist_skip.
  - unfold image_placeholder in Himage.
    destruct (Scene.scene_number scene); cbn in Himage; [|done].
    destruct (Scene.duration scene); cbn in Himage; [|done].
    injection Himage as <-. simpl. by apply sublist_cons.
Qed.

Lemma generate_voiceover_from_paths env scenes : ∀ i0 audio_files,
  generate_voiceover_from env i0 scenes = Ok audio_files →
  omap Audio.audio_path audio_files
  `sublist_of` (audio_file <$> seq i0 (length scenes)).
Proof.
  induction scenes as [|scene scenes IH]; intros i0 audio_files; simpl.
  { by intros [= <-]. }
  destruct (match audio_attempt env i0 scene with
            | Ok audio => Ok audio
            | Raise _ => audio_placeholder scene
            end) as [audio|] eqn:Haudio; cbn; [|done].
  destruct (generate_voiceover_from env (S i0) scenes) as [rest|] eqn:Hrest;
    cbn; [|done].
  intros [= <-]. specialize (IH (S i0) rest Hrest). simpl.
  destruct (audio_attempt env i0 scene) as [audio'|] eqn:Hattempt.
  - injection Haudio as ->.
    apply audio_attempt_record in Hattempt as [_ ->]. by apply sublist_skip.
  - unfold audio_placeholder in Haudio.
    destruct (Scene.scene_number scene); cbn in Haudio; [|done].
    destruct (Scene.duration scene); cbn in Haudio; [|done].
    injection Haudio as <-. simpl. by apply sublist_cons.
Qed.

(** X12: within one run no two scenes share a scratch file: the image
    paths that [generate_images] returns are pairwise distinct, so are
    the audio paths of [generate_voiceover], and the concat list of
    [stitch_video] never names a segment twice. *)
Theorem scratch_files_distinct env script_data scenes resolution dimensions
    images audio_files :
  (∀ produced, generate_images env scenes resolution = Ok produced →
     NoDup (omap Image.image_path produced))
  ∧ (∀ produced, generate_voiceover env script_data = Ok produced →
       NoDup (omap Audio.audio_path produced))
  ∧ NoDup (segment_paths env dimensions images audio_files scenes).
Proof.
  assert (∀ prefix suffix n,
            NoDup ((λ i, prefix +:+ pretty (S i) +:+ suffix) <$> seq 0 n))
    as Hfiles.
  { intros prefix suffix n. apply NoDup_fmap_2; [|apply NoDup_seq].
    intros i j. apply numbered_file_inj. }
  split; [|split].
  - intros produced Hproduced.
    eapply sublist_NoDup;
      [apply (Hfiles "/tmp/images/scene_" ".png" (length scenes))
      |exact (generate_images_from_paths env (resolution_map_get resolution)
                scenes 0 produced Hproduced)].
  - intros produced. unfold generate_voiceover.
    destruct (Script.scenes script_data) as [scenes'|]; cbn; [|done].
    intros Hproduced.
    eapply sublist_NoDup;
      [apply (Hfiles "/tmp/audio/scene_" ".wav" (length scenes'))
      |exact (generate_voiceover_from_paths env scenes' 0 produced Hproduced)].
  - unfold segment_paths.
    destruct (segments_from_indices env dimensions images audio_files scenes 0)
      as [_ Hsorted].
    apply StronglySorted_lt_NoDup in Hsorted.
    change (NoDup ((segment_file ∘ fst)
                     <$> segments_from env dimensions images audio_files 0 scenes)).
    rewrite list_fmap_compose.
    apply NoDup_fmap_2; [|done]. intros i j. apply numbered_file_inj.
Qed.

(** ** Malformed scripts *)

Lemma generate_images_from_unnumbered env dimensions scenes : ∀ i0 scene,
  scene ∈ scenes →
  Scene.scene_number scene = None →
  ∃ msg, generate_images_from env dimensions i0 scenes = Raise msg
    ∧ (msg = key_error "scene_number" ∨ msg = key_error "duration").
Proof.
  induction scenes as [|head scenes IH]; intros i0 scene Hin Hnone.
  { by apply elem_of_nil in Hin. }
  simpl.
  destruct (image_attempt env dimensions i0 head) as [image|err] eqn:Hattempt.
  - apply image_attempt_record in Hattempt as [Hnumber _].
    apply elem_of_cons in Hin as [->|Hin]; [congruence|].
    destruct (IH (S i0) scene Hin Hnone) as (msg & -> & Hmsg). cbn. eauto.
  - unfold image_placeholder.
    destruct (Scene.scene_number head) as [n|] eqn:Hn; cbn; [|by eauto].
    destruct (Scene.duration head) as [d|]; cbn; [|by eauto].
    apply elem_of_cons in Hin as [->|Hin]; [congruence|].
    destruct (IH (S i0) scene Hin Hnone) as (msg & -> & Hmsg). cbn. eauto.
Qed.

(** X13: a scene without a [scene_number] key aborts the image stage,
    whatever the image service does: the [except] clause of that scene
    reads the key again, so [generate_images] raises a [KeyError], and
    the job fails right after the checkpoint 20 with that error. *)
Theorem unnumbered_scene_fails_job env job_id story duration resolution tiktok
    script_data scenes scene :
  generate_script env story duration tiktok = Ok script_data →
  Script.scenes script_data = Some scenes →
  scene ∈ scenes →
  Scene.scene_number scene = None →
  ∃ msg,
    (msg = key_error "scene_number" ∨ msg = key_error "duration")
    ∧ generate_images env scenes resolution = Raise msg
    ∧ effects (generate_video_task env job_id
                 (Request.Build (Some story) (Some duration) (Some resolution)
                    (Some tiktok)))
      = [UpdateJobProgress job_id processing 10 None;
         UpdateJobProgress job_id processing 20 None;
         UpdateJobProgress job_id failed 0 (Some msg)].
Proof.
  intros Hscript Hscenes Hin Hnone.
  destruct (generate_images_from_unnumbered env (resolution_map_get resolution)
              scenes 0 scene Hin Hnone) as (msg & Himages & Hmsg).
  exists msg. split; [done|]. split; [done|].
  rewrite generate_video_task_effects. unfold run_stages. cbn.
  rewrite Hscript. cbn. rewrite Hscenes. cbn.
  unfold generate_images. rewrite Himages. done.
Qed.

Lemma unnumbered_scene_fails_job_witness :
  ∃ msg,
    (msg = key_error "scene_number" ∨ msg = key_error "duration")
    ∧ generate_images malformed_script_env [sample_scene 1; unnumbered_scene]
        "Full HD" = Raise msg
    ∧ effects (generate_video_task malformed_script_env "job-1" sample_request)
      = [UpdateJobProgress "job-1" processing 10 None;
         UpdateJobProgress "job-1" processing 20 None;
         UpdateJobProgress "job-1" failed 0 (Some msg)].
Proof.
  apply (unnumbered_scene_fails_job malformed_script_env "job-1" "Noah's Ark" 15
           "Full HD" false
           {| Script.title := Some "Noah's Ark";
              Script.scenes := Some [sample_scene 1; unnumbered_scene] |}
           [sample_scene 1; unnumbered_scene] unnumbered_scene).
  - reflexivity.
  - reflexivity.
  - apply elem_of_cons. right. apply elem_of_cons. by left.
  - reflexivity.
Defined.

(** X14: a parsed script without a [scenes] entry fails the job after
    the checkpoint 20 with the error ['scenes'], before any image or
    audio is requested. *)
Theorem script_without_scenes_fails_job env job_id story duration resolution
    tiktok script_data :
  generate_script env story duration tiktok = Ok script_data →
  Script.scenes script_data = None →
  effects (generate_video_task env job_id
             (Request.Build (Some story) (Some duration) (Some resolution)
                (Some tiktok)))
  = [UpdateJobProgress job_id processing 10 None;
     UpdateJobProgress job_id processing 20 None;
     UpdateJobProgress job_id failed 0 (Some "'scenes'")]
  ∧ generate_voiceover env script_data = Raise "'scenes'"
  ∧ ∀ images audio_files output_path,
      stitch_video env script_data images audio_files resolution tiktok output_path
      = false.
Proof.
  intros Hscript Hscenes. split; [|split].
  - rewrite generate_video_task_effects. unfold run_stages. cbn.
    rewrite Hscript. cbn. rewrite Hscenes. done.
  - unfold generate_voiceover. by rewrite Hscenes.
  - intros images audio_files output_path.
    unfold stitch_video, stitch_video_body.
    destruct (makedirs env "/tmp/video_segments") as [[]|]; cbn; [|done].
    by rewrite Hscenes.
Qed.

Lemma script_without_scenes_fails_job_witness :
  generate_voiceover sample_env
    {| Script.title := Some "Noah's Ark"; Script.scenes := None |}
  = Raise "'scenes'".
Proof.
  refine (proj1 (proj2 (script_without_scenes_fails_job
            {| openai_chat := openai_chat sample_env;
               json_loads := λ _,
                 Some {| Script.title := Some "Noah's Ark";
                         Script.scenes := None |};
               replicate_download := replicate_download sample_env;
               elevenlabs_generate := elevenlabs_generate sample_env;
               makedirs := makedirs sample_env;
               write_file := write_file sample_env;
               path_exists := path_exists sample_env;
               subprocess_run := subprocess_run sample_env;
               s3_bucket_name := None;
               s3_upload_file := s3_upload_file sample_env |}
            "job-1" "Noah's Ark" 15 "Full HD" false
            {| Script.title := Some "Noah's Ark"; Script.scenes := None |}
            _ _)));
    reflexivity.
Defined.

(** ** From the generation stages to the composition *)

Lemma find_own {A} (number : A → Z) (l : list A) : ∀ i y,
  NoDup (number <$> l) →
  l !! i = Some y →
  List.find (λ x, number x =? number y) l = Some y.
Proof.
  induction l as [|x l IH]; intros i y Hnodup Hi; [done|].
  rewrite fmap_cons in Hnodup. apply NoDup_cons in Hnodup as [Hx Hnodup].
  destruct i as [|i]; simpl in Hi |- *.
  - injection Hi as ->. by rewrite Z.eqb_refl.
  - destruct (Z.eqb_spec (number x) (number y)) as [Heq|_]; [|by eapply IH].
    exfalso. apply Hx. rewrite Heq. apply list_elem_of_fmap.
    exists y. split; [done|]. by eapply list_elem_of_lookup_2.
Qed.

Lemma generate_images_from_numbers env dimensions scenes : ∀ i0 images,
  generate_images_from env dimensions i0 scenes = Ok images →
  Forall2 (λ scene image,
             Scene.scene_number scene = Some (Image.scene_number image))
    scenes images.
Proof.
  induction scenes as [|scene scenes IH]; intros i0 images; simpl.
  { intros [= <-]. constructor. }
  destruct (match image_attempt env dimensions i0 scene with
            | Ok image => Ok image
            | Raise _ => image_placeholder scene
            end) as [image|] eqn:Himage; cbn; [|done].
  destruct (generate_images_from env dimensions (S i0) scenes) as [rest|] eqn:Hrest;
    cbn; [|done].
  intros [= <-]. constructor; [|by eapply IH].
  destruct (image_attempt env dimensions i0 scene) as [image'|] eqn:Hattempt.
  - injection Himage as ->. by apply image_attempt_record in Hattempt as [? _].
  - unfold image_placeholder in Himage.
    destruct (Scene.scene_number scene); cbn in Himage; [|done].
    destruct (Scene.duration scene); cbn in Himage; [|done].
    by injection Himage as <-.
Qed.

Lemma generate_voiceover_from_numbers env scenes : ∀ i0 audio_files,
  generate_voiceover_from env i0 scenes = Ok audio_files →
  Forall2 (λ scene audio,
             Scene.scene_number scene = Some (Audio.scene_number audio))
    scenes audio_files.
Proof.
  induction scenes as [|scene scenes IH]; intros i0 audio_files; simpl.
  { intros [= <-]. constructor. }
  destruct (match audio_attempt env i0 scene with
            | Ok audio => Ok audio
            | Raise _ => audio_placeholder scene
            end) as [audio|] eqn:Haudio; cbn; [|done].
  destruct (generate_voiceover_from env (S i0) scenes) as [rest|] eqn:Hrest;
    cbn; [|done].
  intros [= <-]. constructor; [|by eapply IH].
  destruct (audio_attempt env i0 scene) as [audio'|] eqn:Hattempt.
  - injection Haudio as ->. by apply audio_attempt_record in Hattempt as [? _].
  - unfold audio_placeholder in Haudio.
    destruct (Scene.scene_number scene); cbn in Haudio; [|done].
    destruct (Scene.duration scene); cbn in Haudio; [|done].
    by injection Haudio as <-.
Qed.

Lemma numbers_of_records {A} (number : A → Z) (scenes : list Scene.t)
    (records : list A) :
  Forall2 (λ scene record, Scene.scene_number scene = Some (number record))
    scenes records →
  scene_numbers scenes = number <$> records.
Proof.
  unfold scene_numbers.
  induction 1 as [|scene record scenes records Hhead _ IH]; [done|].
  simpl. rewrite Hhead. simpl. f_equal. exact IH.
Qed.

(** Each scene of a script with distinct scene numbers finds the
    records that the stages made for it. *)
Lemma own_artifacts env script_data scenes resolution images audio_files i scene :
  Script.scenes script_data = Some scenes →
  NoDup (scene_numbers scenes) →
  generate_images env scenes resolution = Ok images →
  generate_voiceover env script_data = Ok audio_files →
  scenes !! i = Some scene →
  ∃ image audio,
    images !! i = Some image
    ∧ audio_files !! i = Some audio
    ∧ next_image_path images scene = Ok (Image.image_path image)
    ∧ next_audio_path audio_files scene = Ok (Audio.audio_path audio).
Proof.
  intros Hscenes Hnodup Himages Haudio Hscene.
  unfold generate_voiceover in Haudio. rewrite Hscenes in Haudio. cbn in Haudio.
  apply generate_images_from_numbers in Himages.
  apply generate_voiceover_from_numbers in Haudio.
  destruct (Forall2_lookup_l _ _ _ _ _ Himages Hscene) as (image & Himage & Hn).
  destruct (Forall2_lookup_l _ _ _ _ _ Haudio Hscene) as (audio & Haud & Hn').
  exists image, audio. split; [done|]. split; [done|].
  rewrite (numbers_of_records Image.scene_number _ _ Himages) in Hnodup.
  pose proof Hnodup as Hnodup'.
  rewrite <-(numbers_of_records Image.scene_number _ _ Himages),
    (numbers_of_records Audio.scene_number _ _ Haudio) in Hnodup'.
  pose proof (find_own Image.scene_number images i image Hnodup Himage) as Hfind.
  pose proof (find_own Audio.scene_number audio_files i audio Hnodup' Haud)
    as Hfind'.
  split.
  - unfold next_image_path. destruct images as [|first images]; [done|].
    rewrite Hn. unfold getitem, mbind, result_bind. by rewrite Hfind.
  - unfold next_audio_path. destruct audio_files as [|first audio_files]; [done|].
    rewrite Hn'. unfold getitem, mbind, result_bind. by rewrite Hfind'.
Qed.



(** ** Runs in which every collaborator answers *)

Lemma filter_all {A} (P : A → Prop) `{!∀ x, Decision (P x)} (l : list A) :
  Forall P l → filter P l = l.
Proof.
  induction 1 as [|x l Hx _ IH]; [done|].
  rewrite filter_cons_True by done. by rewrite IH.
Qed.

Lemma filter_none {A} (P : A → Prop) `{!∀ x, Decision (P x)} (l : list A) :
  Forall (λ x, ¬ P x) l → filter P l = [].
Proof.
  induction 1 as [|x l Hx _ IH]; [done|].
  by rewrite filter_cons_False.
Qed.

Lemma image_attempt_ok env dimensions i scene :
  collaborators_ok env → complete_scene scene →
  ∃ image, image_attempt env dimensions i scene = Ok image.
Proof.
  intros (Hdownload & _ & Hmk & Hwrite & _) ([n Hn] & [d Hd] & _ & [desc Hdesc]).
  unfold image_attempt. rewrite Hdesc. cbn. rewrite Hdownload. cbn.
  rewrite Hmk. cbn. rewrite Hwrite. cbn. rewrite Hn, Hd. cbn. by eexists.
Qed.

Lemma audio_attempt_ok env i scene :
  collaborators_ok env → complete_scene scene →
  ∃ audio, audio_attempt env i scene = Ok audio.
Proof.
  intros (_ & Hspeech & Hmk & Hwrite & _) ([n Hn] & _ & [text Htext] & _).
  unfold audio_attempt. rewrite Htext. cbn.
  destruct (Hspeech i text) as [bytes ->]. cbn.
  rewrite Hmk. cbn. rewrite Hwrite. cbn. rewrite Hn. cbn. by eexists.
Qed.

Lemma stitch_video_all_provisioned env script_data scenes images audio_files
    resolution tiktok output_path :
  collaborators_ok env →
  Script.scenes script_data = Some scenes →
  scenes ≠ [] →
  Forall (λ scene, provisioned env images audio_files scene = true) scenes →
  stitch_video env script_data images audio_files resolution tiktok output_path
  = true
  ∧ length (segment_paths env (resolution_map_get resolution) images audio_files
              scenes) = length scenes.
Proof.
  intros (_ & _ & Hmk & Hwrite & _ & Hffmpeg) Hscenes Hne Hall.
  pose proof (segments_from_tools_ok env (resolution_map_get resolution) images
                audio_files scenes 0 Hffmpeg) as Hsegs.
  rewrite filter_all in Hsegs by done.
  assert (length (segment_paths env (resolution_map_get resolution) images
                    audio_files scenes) = length scenes) as Hlen.
  { unfold segment_paths. by rewrite length_fmap, <-(length_fmap snd), Hsegs. }
  split; [|done].
  unfold stitch_video, stitch_video_body. rewrite Hmk. cbn. rewrite Hscenes. cbn.
  destruct (segment_paths env _ images audio_files scenes) as [|path paths].
  { destruct scenes; [done|discriminate Hlen]. }
  rewrite Hwrite. cbn. by rewrite Hffmpeg.
Qed.

Lemma run_stages_succeed env job_id story duration resolution tiktok
    script_data scenes :
  collaborators_ok env →
  generate_script env story duration tiktok = Ok script_data →
  Script.scenes script_data = Some scenes →
  scenes ≠ [] →
  Forall complete_scene scenes →
  NoDup (scene_numbers scenes) →
  ∃ images audio_files,
    generate_images env scenes resolution = Ok images
    ∧ generate_voiceover env script_data = Ok audio_files
    ∧ length (segment_paths env (resolution_map_get resolution) images
                audio_files scenes) = length scenes
    ∧ outcome (run_stages env job_id
                 (Request.Build (Some story) (Some duration) (Some resolution)
                    (Some tiktok)))
      = Ok (output_file job_id, true).
Proof.
  intros Hok Hscript Hscenes Hne Hcomplete Hnodup.
  assert (Forall well_formed scenes) as Hwf.
  { eapply Forall_impl; [exact Hcomplete|]. by intros scene (? & ? & _). }
  destruct (generate_images_from_total env (resolution_map_get resolution) scenes
              0 Hwf) as (images & Himages & _ & Himage).
  destruct (generate_voiceover_from_total env scenes 0 Hwf)
    as (audio_files & Haudio & _ & Haud).
  assert (generate_voiceover env script_data = Ok audio_files) as Hvoice.
  { unfold generate_voiceover. by rewrite Hscenes. }
  assert (Forall (λ scene, provisioned env images audio_files scene = true) scenes)
    as Hall.
  { apply Forall_lookup. intros i scene Hscene.
    destruct (own_artifacts env script_data scenes resolution images audio_files
                i scene Hscenes Hnodup Himages Hvoice Hscene)
      as (image & audio & Hi & Ha & Hnext & Hnext').
    destruct (Himage i scene Hscene) as (image' & Hi' & _ & Hpath).
    destruct (Haud i scene Hscene) as (audio' & Ha' & _ & Hpath').
    assert (image' = image) as -> by congruence.
    assert (audio' = audio) as -> by congruence.
    pose proof (proj1 (Forall_lookup _ _) Hcomplete i scene Hscene) as Hsc.
    destruct (image_attempt_ok env (resolution_map_get resolution) i scene Hok Hsc)
      as [? Hattempt].
    destruct (audio_attempt_ok env i scene Hok Hsc) as [? Hattempt'].
    simpl in Hpath, Hpath'. rewrite Hattempt in Hpath. rewrite Hattempt' in Hpath'.
    unfold provisioned. rewrite Hnext, Hnext', Hpath, Hpath'.
    destruct Hok as (_ & _ & _ & _ & Hexists & _).
    unfold usable. simpl. by rewrite !Hexists. }
  destruct (stitch_video_all_provisioned env script_data scenes images audio_files
              resolution tiktok (output_file job_id) Hok Hscenes Hne Hall)
    as [Hstitch Hlen].
  exists images, audio_files. split; [done|]. split; [done|]. split; [done|].
  destruct Hok as (_ & _ & Hmk & _).
  unfold run_stages. cbn. rewrite Hscript. cbn. rewrite Hscenes. cbn.
  unfold generate_images in Himages |- *. rewrite Himages. cbn.
  rewrite Hvoice. cbn. rewrite Hmk. cbn. by rewrite Hstitch.
Qed.

Lemma completed_record env clock job_id request_data db job_info output_path :
  outcome (run_stages env job_id request_data) = Ok (output_path, true) →
  db !! job_key job_id = Some job_info →
  ∃ final,
    worker_run env clock job_id request_data db !! job_key job_id = Some final
    ∧ Job.status final = completed
    ∧ Job.progress final = 100.
Proof.
  intros Hout Hdb. unfold worker_run.
  rewrite (run_effects_present _ job_id _ _ _ job_info)
    by (done || apply generate_video_task_targets).
  destruct (generate_video_task_shape env job_id request_data)
    as [(k & msg & _ & [Hraise|(_ & _ & Hfalse)] & _)|(_ & ups & _ & ->)];
    [congruence..|].
  eexists. split; [done|].
  by rewrite app_comm_cons, app_assoc, run_record_snoc.
Qed.

(** X16: when the image service, the speech service, the scratch file
    system and ffmpeg all answer, a script of at least one scene, each
    with its four keys and with pairwise distinct scene numbers, is
    turned into a video of as many sub-clips as it has scenes, and the
    job ends completed with progress 100. *)
Theorem pipeline_completes env clock job_id story duration resolution tiktok
    script_data scenes db job_info :
  collaborators_ok env →
  generate_script env story duration tiktok = Ok script_data →
  Script.scenes script_data = Some scenes →
  scenes ≠ [] →
  Forall complete_scene scenes →
  NoDup (scene_numbers scenes) →
  db !! job_key job_id = Some job_info →
  (∃ images audio_files,
      generate_images env scenes resolution = Ok images
      ∧ generate_voiceover env script_data = Ok audio_files
      ∧ length (segment_paths env (resolution_map_get resolution) images
                  audio_files scenes) = length scenes)
  ∧ ∃ final,
      worker_run env clock job_id
        (Request.Build (Some story) (Some duration) (Some resolution) (Some tiktok))
        db !! job_key job_id = Some final
      ∧ Job.status final = completed
      ∧ Job.progress final = 100.
Proof.
  intros Hok Hscript Hscenes Hne Hcomplete Hnodup Hdb.
  destruct (run_stages_succeed env job_id story duration resolution tiktok
              script_data scenes Hok Hscript Hscenes Hne Hcomplete Hnodup)
    as (images & audio_files & Himages & Haudio & Hlen & Hout).
  split; [by exists images, audio_files|].
  by eapply completed_record.
Qed.

Lemma sample_env_ok : collaborators_ok sample_env.
Proof. repeat split; by eauto. Qed.

Lemma sample_scenes_complete :
  Forall complete_scene [sample_scene 1; sample_scene 2]
  ∧ NoDup (scene_numbers [sample_scene 1; sample_scene 2]).
Proof.
  split.
  - repeat constructor; by eexists.
  - apply NoDup_cons. split; [|apply NoDup_singleton].
    intros Hin. apply list_elem_of_singleton in Hin. discriminate.
Qed.

Lemma pipeline_completes_witness :
  ∃ final,
    worker_run sample_env sample_clock "job-1" sample_request
      (redis sample_backend) !! job_key "job-1" = Some final
    ∧ Job.status final = completed
    ∧ Job.progress final = 100.
Proof.
  destruct sample_scenes_complete as [Hcomplete Hnodup].
  destruct (pipeline_completes sample_env sample_clock "job-1" "Noah's Ark" 15
              "Full HD" false sample_script [sample_scene 1; sample_scene 2]
              (redis sample_backend) _ sample_env_ok ltac:(reflexivity)
              ltac:(reflexivity) ltac:(discriminate) Hcomplete Hnodup
              ltac:(vm_compute; reflexivity)) as [_ Hfinal].
  exact Hfinal.
Defined.

(** X17: the fallback script is a usable script: when the completion is
    not JSON and the other collaborators answer, the job still ends
    completed, with a video made of exactly one sub-clip. *)
Theorem fallback_script_completes env clock job_id story duration resolution
    tiktok text db job_info :
  collaborators_ok env →
  openai_chat env story duration tiktok = Ok text →
  json_loads env text = None →
  db !! job_key job_id = Some job_info →
  (∃ scene images audio_files,
      generate_script env story duration tiktok
      = Ok {| Script.title := Some story; Script.scenes := Some [scene] |}
      ∧ generate_images env [scene] resolution = Ok images
      ∧ generate_voiceover env (fallback_script story duration text)
        = Ok audio_files
      ∧ length (segment_paths env (resolution_map_get resolution) images
                  audio_files [scene]) = 1%nat)
  ∧ ∃ final,
      worker_run env clock job_id
        (Request.Build (Some story) (Some duration) (Some resolution) (Some tiktok))
        db !! job_key job_id = Some final
      ∧ Job.status final = completed
      ∧ Job.progress final = 100.
Proof.
  intros Hok Hchat Hjson Hdb.
  assert (generate_script env story duration tiktok
          = Ok (fallback_script story duration text)) as Hscript.
  { unfold generate_script. rewrite Hchat. cbn. by rewrite Hjson. }
  destruct (run_stages_succeed env job_id story duration resolution tiktok
              (fallback_script story duration text) _ Hok Hscript eq_refl)
    as (images & audio_files & Himages & Haudio & Hlen & Hout).
  - discriminate.
  - repeat constructor; by eexists.
  - apply NoDup_singleton.
  - split; [|by eapply completed_record].
    eexists _, images, audio_files. by rewrite Hscript.
Qed.

Lemma prose_env_ok : collaborators_ok prose_env.
Proof. repeat split; by eauto. Qed.

Lemma fallback_script_completes_witness :
  ∃ final,
    worker_run prose_env sample_clock "job-1" sample_request
      (redis sample_backend) !! job_key "job-1" = Some final
    ∧ Job.status final = completed
    ∧ Job.progress final = 100.
Proof.
  destruct (fallback_script_completes prose_env sample_clock "job-1" "Noah's Ark"
              15 "Full HD" false "Here is your script: ..."
              (redis sample_backend) _ prose_env_ok ltac:(reflexivity)
              ltac:(reflexivity) ltac:(vm_compute; reflexivity)) as [_ Hfinal].
  exact Hfinal.
Defined.

(** ** Edge cases of the composition *)

Lemma segments_from_none env dimensions images audio_files scenes i0 :
  Forall (λ scene, provisioned env images audio_files scene ≠ true) scenes →
  segments_from env dimensions images audio_files i0 scenes = [].
Proof.
  intros Hnone.
  pose proof (segments_from_sublist env dimensions images audio_files scenes i0)
    as Hsub.
  rewrite filter_none in Hsub by done.
  apply sublist_nil_r, fmap_nil_inv in Hsub. done.
Qed.

(** X18: without images, without audio records or without scenes there
    is nothing to compose: [stitch_video] returns False, whatever ffmpeg
    and the file system answer. *)
Theorem stitch_video_needs_artifacts env script_data images audio_files
    resolution tiktok output_path :
  images = [] ∨ audio_files = [] ∨ Script.scenes script_data = Some [] →
  stitch_video env script_data images audio_files resolution tiktok output_path
  = false.
Proof.
  intros Hempty.
  destruct (Script.scenes script_data) as [scenes|] eqn:Hscenes; last first.
  { unfold stitch_video, stitch_video_body.
    destruct (makedirs env "/tmp/video_segments") as [[]|]; cbn; [|done].
    by rewrite Hscenes. }
  apply (stitch_video_no_segments env script_data scenes); [done|].
  apply segments_from_none.
  destruct Hempty as [->|[->|[= ->]]]; [| |constructor];
    apply Forall_forall; intros scene _; unfold provisioned.
  - simpl. by destruct (next_audio_path audio_files scene).
  - destruct (next_image_path images scene) as [image_path|]; [|done].
    simpl. unfold usable. simpl. by rewrite andb_false_r.
Qed.

Lemma stitch_video_needs_artifacts_witness :
  stitch_video sample_env sample_script [] sample_audio_files "HD" false
    (output_file "job-1") = false.
Proof.
  apply (stitch_video_needs_artifacts sample_env sample_script []
           sample_audio_files "HD" false (output_file "job-1")).
  by left.
Defined.

Lemma resolution_map_get_default resolution :
  resolution ∉ valid_resolutions →
  resolution_map_get resolution = resolution_map_get "Full HD".
Proof.
  intros Hinvalid. unfold resolution_map_get.
  destruct (String.eqb_spec resolution "HD") as [->|_].
  { exfalso. apply Hinvalid. apply elem_of_cons. by left. }
  destruct (String.eqb_spec resolution "Full HD") as [->|_]; [done|].
  destruct (String.eqb_spec resolution "4K") as [->|_]; [|done].
  exfalso. apply Hinvalid. do 2 (apply elem_of_cons; right).
  apply elem_of_cons. by left.
Qed.

(** X19: a resolution outside HD, Full HD and 4K is not an error for the
    stages: images are requested and segments are scaled exactly as for
    Full HD. *)
Theorem unknown_resolution_is_full_hd env script_data scenes images audio_files
    resolution tiktok output_path :
  resolution ∉ valid_resolutions →
  generate_images env scenes resolution = generate_images env scenes "Full HD"
  ∧ stitch_video env script_data images audio_files resolution tiktok output_path
    = stitch_video env script_data images audio_files "Full HD" tiktok output_path.
Proof.
  intros Hinvalid.
  unfold generate_images, stitch_video, stitch_video_body.
  by rewrite (resolution_map_get_default resolution Hinvalid).
Qed.

Lemma unknown_resolution_is_full_hd_witness :
  generate_images sample_env [sample_scene 1] "8K"
  = generate_images sample_env [sample_scene 1] "Full HD".
Proof.
  refine (proj1 (unknown_resolution_is_full_hd sample_env sample_script
                   [sample_scene 1] [] [] "8K" false (output_file "job-1") _)).
  intros Hin. by apply (bool_decide_pack _) in Hin.
Defined.

(** * Further properties of the job store *)

(** X20: what [GET /status] shows after an update.  For a known job it
    shows the status and progress just written, the creation time
    unchanged, and the error just written if that is a non-empty text,
    the previous error otherwise; for an unknown job the update stores
    nothing and the answer stays 404. *)
Theorem status_reflects_update now job_id st pr err backend0 :
  get_job_status job_id
    {| redis := update_job_progress now job_id st pr err (redis backend0);
       celery_queue := celery_queue backend0 |}
  = match redis backend0 !! job_key job_id with
    | Some job_info =>
        Response 200
          (StatusBody job_id st pr (Job.created_at job_info)
             (if truthy err then err else Job.error job_info))
    | None => Response 404 (ErrorBody "Job not found")
    end.
Proof.
  unfold get_job_status, update_job_progress. cbn [redis].
  destruct (redis backend0 !! job_key job_id) as [job_info|] eqn:Hdb.
  - by rewrite lookup_insert_eq.
  - by rewrite Hdb.
Qed.

(** X21: the updates of a run are consistent: each one addresses the
    run's own job; the status completed is written with progress 100
    and only so, the status failed with progress 0 and only so; every
    progress value lies between 0 and 100; and an error is passed only
    with the status failed. *)
Theorem task_updates_consistent env job_id request_data id st pr err :
  UpdateJobProgress id st pr err
    ∈ effects (generate_video_task env job_id request_data) →
  id = job_id
  ∧ 0 ≤ pr ≤ 100
  ∧ (st = completed ↔ pr = 100)
  ∧ (st = failed ↔ pr = 0)
  ∧ (err ≠ None → st = failed)
  ∧ st ≠ queued.
Proof.
  intros Hin.
  destruct (generate_video_task_shape env job_id request_data)
    as [(k & msg & _ & _ & Hes)|(_ & ups & Hups & Hes)];
    rewrite Hes in Hin; clear Hes.
  - apply elem_of_app in Hin as [Hin|Hin].
    + apply elem_of_take in Hin as (i & Hin & _).
      destruct i as [|[|[|[|i]]]]; simpl in Hin; simplify_eq;
        by repeat split; try lia.
    + apply list_elem_of_singleton in Hin. simplify_eq.
      by repeat split; try lia.
  - subst ups. destruct (truthy (s3_bucket_name env));
      repeat (apply elem_of_cons in Hin as [Hin|Hin];
              [simplify_eq; by repeat split; try lia|]);
      by apply elem_of_nil in Hin.
Qed.

Lemma task_updates_consistent_witness :
  "job-1" = "job-1" ∧ 0 ≤ 100 ≤ 100.
Proof.
  destruct (task_updates_consistent sample_env "job-1" sample_request "job-1"
              completed 100 None) as (Hid & Hrange & _).
  - vm_compute. do 5 right. left.
  - split; [exact Hid|exact Hrange].
Defined.


(** * The order and the number of the composed sub-clips *)




(** ** Degraded scenes *)

Lemma image_file_nonempty i : image_file i ≠ "".
Proof. done. Qed.

Lemma audio_file_nonempty i : audio_file i ≠ "".
Proof. done. Qed.

Lemma generate_images_nonempty_paths env scenes resolution images :
  generate_images env scenes resolution = Ok images →
  Forall (λ image, Image.image_path image ≠ Some "") images.
Proof.
  intros Himages. apply generate_images_from_paths in Himages.
  apply Forall_forall. intros image Hin Hpath.
  assert ("" ∈ omap Image.image_path images) as Hempty.
  { apply list_elem_of_omap. by exists image. }
  eapply elem_of_sublist in Hempty; [|exact Himages].
  apply list_elem_of_fmap in Hempty as (i & Hi & _).
  by destruct (image_file_nonempty i).
Qed.

Lemma generate_voiceover_nonempty_paths env script_data audio_files :
  generate_voiceover env script_data = Ok audio_files →
  Forall (λ audio, Audio.audio_path audio ≠ Some "") audio_files.
Proof.
  unfold generate_voiceover.
  destruct (Script.scenes script_data) as [scenes|]; cbn; [|done].
  intros Haudio. apply generate_voiceover_from_paths in Haudio.
  apply Forall_forall. intros audio Hin Hpath.
  assert ("" ∈ omap Audio.audio_path audio_files) as Hempty.
  { apply list_elem_of_omap. by exists audio. }
  eapply elem_of_sublist in Hempty; [|exact Haudio].
  apply list_elem_of_fmap in Hempty as (i & Hi & _).
  by destruct (audio_file_nonempty i).
Qed.

(** On references that are null or name a file, the guard of the
    composition loop asks for both files. *)
Lemma usable_file_present env image_path audio_path :
  image_path ≠ Some "" → audio_path ≠ Some "" →
  usable env image_path audio_path
  = file_present env image_path && file_present env audio_path.
Proof.
  intros Himage Haudio. unfold usable, truthy, file_present.
  destruct image_path as [ip|]; [|done].
  destruct audio_path as [ap|]; simpl; [|by rewrite !andb_false_r].
  destruct (String.eqb_spec ip "") as [->|_]; [done|].
  destruct (String.eqb_spec ap "") as [->|_]; [done|]. done.
Qed.

(** With distinct scene numbers, the loop composes a scene exactly when
    the records made for that scene provision it fully. *)
Lemma provisioned_by_own_records env script_data scenes resolution images
    audio_files :
  Script.scenes script_data = Some scenes →
  NoDup (scene_numbers scenes) →
  generate_images env scenes resolution = Ok images →
  generate_voiceover env script_data = Ok audio_files →
  Forall2 (λ scene records,
             provisioned env images audio_files scene = true
             ↔ fully_provisioned env records)
    scenes (zip images audio_files).
Proof.
  intros Hscenes Hnodup Himages Haudio.
  pose proof (generate_images_nonempty_paths _ _ _ _ Himages) as Hipaths.
  pose proof (generate_voiceover_nonempty_paths _ _ _ Haudio) as Hapaths.
  assert (length images = length scenes ∧ length audio_files = length scenes)
    as [Hilen Halen].
  { pose proof Haudio as Haudio'. unfold generate_voiceover in Haudio'.
    rewrite Hscenes in Haudio'. cbn in Haudio'.
    apply generate_voiceover_from_numbers, Forall2_length in Haudio'.
    pose proof Himages as Himages'.
    apply generate_images_from_numbers, Forall2_length in Himages'. lia. }
  apply Forall2_same_length_lookup. split.
  { rewrite length_zip. lia. }
  intros i scene [image audio] Hscene Hrecords.
  apply lookup_zip_with_Some in Hrecords as (? & ? & [= <- <-] & Himage & Haud).
  destruct (own_artifacts env script_data scenes resolution images audio_files
              i scene Hscenes Hnodup Himages Haudio Hscene)
    as (image' & audio' & Himage' & Haud' & Hnext & Hnext').
  assert (image' = image) as -> by congruence.
  assert (audio' = audio) as -> by congruence.
  unfold provisioned, fully_provisioned. rewrite Hnext, Hnext'. simpl.
  rewrite usable_file_present.
  - apply andb_true_iff.
  - by eapply (proj1 (Forall_lookup _ _) Hipaths).
  - by eapply (proj1 (Forall_lookup _ _) Hapaths).
Qed.

Lemma filter_Forall2 {A B} (P : A → Prop) (Q : B → Prop)
    `{!∀ x, Decision (P x), !∀ y, Decision (Q y)} (l : list A) (k : list B) :
  Forall2 (λ x y, P x ↔ Q y) l k →
  filter P l = (filter (λ xy, Q xy.2) (zip l k)).*1.
Proof.
  induction 1 as [|x y l k Hxy _ IH]; [done|].
  simpl. rewrite !filter_cons. simpl.
  destruct (decide (P x)) as [HP|HP], (decide (Q y)) as [HQ|HQ];
    [|by destruct HQ; apply Hxy|by destruct HP; apply Hxy|]; simpl;
    by rewrite IH.
Qed.

Lemma filter_zip_length {A B} (Q : B → Prop) `{!∀ y, Decision (Q y)}
    (l : list A) (k : list B) :
  length l = length k →
  length (filter (λ xy, Q xy.2) (zip l k)) = length (filter Q k).
Proof.
  revert k. induction l as [|x l IH]; intros [|y k] Hlen;
    simpl in Hlen; try done.
  simpl. rewrite !filter_cons. simpl.
  destruct (decide (Q y)); simpl; rewrite IH by lia; done.
Qed.

Lemma filter_complement_length {A} (Q : A → Prop) `{!∀ y, Decision (Q y)}
    (k : list A) :
  (length (filter Q k) + length (filter (λ y, ¬ Q y) k))%nat = length k.
Proof.
  induction k as [|y k IH]; [done|].
  rewrite !filter_cons. destruct (decide (Q y)) as [HQ|HQ].
  - rewrite decide_False by (by intros ?). simpl. lia.
  - rewrite decide_True by done. simpl. lia.
Qed.

(** C3, as stated, fails.  With two scenes of which one lacks its
    image, composition still fails when ffmpeg exits with an error.
    With two scenes that carry the same scene number and of which one
    lacks its image, both are composed, from the records of the first.
    And when every scene lacks a file the error recorded for the job is
    "Video stitching failed". *)
Lemma composition_not_determined_by_artifacts :
  (∃ images audio_files,
      generate_images degraded_ffmpeg_failing_env
        [sample_scene 1; sample_scene 2] "HD" = Ok images
      ∧ generate_voiceover degraded_ffmpeg_failing_env sample_script
        = Ok audio_files
      ∧ length (filter (λ r, ¬ fully_provisioned degraded_ffmpeg_failing_env r)
                  (zip images audio_files)) = 1%nat
      ∧ stitch_video degraded_ffmpeg_failing_env sample_script images
          audio_files "HD" false (output_file "job-1") = false)
  ∧ (∃ images audio_files,
        generate_images one_image_missing_env
          [sample_scene 1; sample_scene 1] "HD" = Ok images
        ∧ generate_voiceover one_image_missing_env twin_script = Ok audio_files
        ∧ length (filter (λ r, ¬ fully_provisioned one_image_missing_env r)
                    (zip images audio_files)) = 1%nat
        ∧ stitch_video one_image_missing_env twin_script images audio_files
            "HD" false (output_file "job-1") = true
        ∧ length (segment_paths one_image_missing_env (resolution_map_get "HD")
                    images audio_files [sample_scene 1; sample_scene 1])
          = 2%nat)
  ∧ (∃ images audio_files,
        generate_images missing_files_env [sample_scene 1; sample_scene 2]
          "Full HD" = Ok images
        ∧ generate_voiceover missing_files_env sample_script = Ok audio_files
        ∧ length (filter (λ r, ¬ fully_provisioned missing_files_env r)
                    (zip images audio_files)) = 2%nat
        ∧ Job.error <$>
            worker_run missing_files_env sample_clock "job-1" sample_request
              (redis sample_backend) !! job_key "job-1"
          = Some (Some "Video stitching failed")).
Proof.
  split; [|split]; eexists _, _;
    (split; [reflexivity|]); (split; [reflexivity|]); repeat split; by vm_compute.
Qed.

(** C3, amended: take a script of [N] scenes with pairwise distinct
    scene numbers, and let [K] of the scenes lack an image or audio
    artifact (a null reference or a missing file) among the records that
    the image and the voice stage made for them.  If [K < N] and ffmpeg
    exits with 0 on every command (the segment directory and the concat
    list being writable), [stitch_video] succeeds and composes exactly
    [N - K] sub-clips, one per fully-provisioned scene, in script order.
    If [K = N], [stitch_video] fails and the job ends [failed] with the
    error "Video stitching failed". *)
Theorem degraded_scenes_are_skipped env script_data scenes images audio_files
    resolution tiktok output_path :
  Script.scenes script_data = Some scenes →
  NoDup (scene_numbers scenes) →
  generate_images env scenes resolution = Ok images →
  generate_voiceover env script_data = Ok audio_files →
  let records := zip images audio_files in
  let N := length scenes in
  let K := length (filter (λ r, ¬ fully_provisioned env r) records) in
  let segments :=
    segments_from env (resolution_map_get resolution) images audio_files 0 scenes in
  length records = N
  ∧ (composition_tools_ok env → (K < N)%nat →
     stitch_video env script_data images audio_files resolution tiktok output_path
     = true
     ∧ length (segment_paths env (resolution_map_get resolution) images
                 audio_files scenes) = (N - K)%nat
     ∧ segments.*2
       = (filter (λ sr, fully_provisioned env sr.2) (zip scenes records)).*1)
  ∧ (K = N →
     stitch_video env script_data images audio_files resolution tiktok output_path
     = false
     ∧ ∀ clock job_id request_data db job_info,
         stages_produce env request_data script_data scenes images audio_files →
         db !! job_key job_id = Some job_info →
         ∃ final,
           worker_run env clock job_id request_data db !! job_key job_id
           = Some final
           ∧ Job.status final = failed
           ∧ Job.error final = Some "Video stitching failed").
Proof.
  intros Hscenes Hnodup Himages Haudio records N K segments.
  pose proof (provisioned_by_own_records env script_data scenes resolution images
                audio_files Hscenes Hnodup Himages Haudio) as Hown.
  fold records in Hown.
  pose proof (Forall2_length _ _ _ Hown) as Hlen. symmetry in Hlen.
  pose proof (filter_Forall2 _ _ _ _ Hown) as Hfilter.
  pose proof (filter_zip_length (fully_provisioned env) scenes records
                (eq_sym Hlen)) as Hcount.
  pose proof (filter_complement_length (fully_provisioned env) records) as Hsum.
  fold K in Hsum.
  assert (length (filter (λ scene, provisioned env images audio_files scene = true)
                    scenes) = (N - K)%nat) as Hcomposed.
  { rewrite Hfilter, length_fmap, Hcount. subst N. lia. }
  split; [done|]. split.
  - intros (Hmk & Hwrite & Hffmpeg) HK.
    pose proof (segments_from_tools_ok env (resolution_map_get resolution)
                  images audio_files scenes 0 Hffmpeg) as Hsegs.
    fold segments in Hsegs.
    assert (length (segment_paths env (resolution_map_get resolution) images
                      audio_files scenes) = (N - K)%nat) as Hpaths.
    { unfold segment_paths. fold segments.
      by rewrite length_fmap, <-(length_fmap snd), Hsegs. }
    split; [|split; [done|by rewrite Hsegs]].
    unfold stitch_video, stitch_video_body.
    rewrite Hmk. cbn. rewrite Hscenes. cbn.
    destruct (segment_paths env _ images audio_files scenes) as [|path paths].
    { simpl in Hpaths. lia. }
    rewrite Hwrite. cbn. by rewrite Hffmpeg.
  - intros HK.
    assert (∀ dimensions,
              segments_from env dimensions images audio_files 0 scenes = [])
      as Hnone.
    { intros dimensions.
      pose proof (segments_from_sublist env dimensions images audio_files scenes 0)
        as Hsub.
      apply sublist_length in Hsub. rewrite length_fmap, Hcomposed in Hsub.
      apply length_zero_iff_nil. lia. }
    split; [by eapply stitch_video_no_segments|].
    intros clock job_id request_data db job_info Hstages Hdb.
    destruct (run_stages_reaches_composition env job_id request_data script_data
                scenes images audio_files Hstages) as (res & tk & Hout).
    rewrite (stitch_video_no_segments env script_data scenes) in Hout by done.
    destruct (composition_failure_record env clock job_id request_data db
                job_info _ Hout Hdb) as (final & Hfinal & Hst & _ & Herr).
    by exists final.
Qed.

Lemma degraded_scenes_are_skipped_witness :
  ∃ images audio_files,
    generate_images one_image_missing_env [sample_scene 1; sample_scene 2] "HD"
    = Ok images
    ∧ generate_voiceover one_image_missing_env sample_script = Ok audio_files
    ∧ stitch_video one_image_missing_env sample_script images audio_files "HD"
        false (output_file "job-1") = true
    ∧ length (segment_paths one_image_missing_env (resolution_map_get "HD")
                images audio_files [sample_scene 1; sample_scene 2]) = 1%nat.
Proof.
  destruct sample_scenes_complete as [_ Hnodup].
  eexists _, _. split; [reflexivity|]. split; [reflexivity|].
  destruct (degraded_scenes_are_skipped one_image_missing_env sample_script
              [sample_scene 1; sample_scene 2] _ _ "HD" false
              (output_file "job-1") eq_refl Hnodup eq_refl eq_refl)
    as (_ & Hpartial & _).
  destruct Hpartial as (Hok & Hlen & _).
  - repeat split; reflexivity.
  - vm_compute. lia.
  - split; [exact Hok|exact Hlen].
Defined.
